(** * HiAnime scraping handler ([api/anime.js]): a shallow embedding

    The file models the single source file of the repository: the helper
    [fetchFromHiAnime], the three extractors [getHomePage], [searchAnime]
    and [getAnimeDetails], and the exported [handler].

    - JavaScript strings are modelled by the bytes of their UTF-8 encoding
      ([string]), which takes them to be well-formed (no lone surrogate),
      as the strings of a query string and of a fetched body are.
    - JavaScript numbers that the program can produce are integer valued,
      infinite or NaN ([number]); the rounding of [parseInt] to a double is
      written out on [Z].
    - Object literals and arrays are [value]s, keys in source order.
    - [fetch], [console.error] and [throw] are effects of a small monad [M]
      that threads a trace of events and may end in a thrown error.
    - cheerio is a third-party library: the program is written against the
      interface [Cheerio]; [Fixture] is a small implementation of it over
      a rose tree, used to run the program on concrete pages. *)

From stdpp Require Import gmap strings list.
From Stdlib Require Import ZArith Ascii.

Local Open Scope string_scope.
Local Open Scope Z_scope.

(** ** JavaScript strings *)

Module JsString.

Definition of_bytes (l : list N) : string :=
  String.string_of_list_ascii (map Ascii.ascii_of_N l).

Definition bytes (s : string) : list ascii := String.list_ascii_of_string s.

Definition code (c : ascii) : Z := Z.of_N (Ascii.N_of_ascii c).

(** The double quote character, as a one-character string. *)
Definition dquote : string := of_bytes [34%N].

(** WhiteSpace and LineTerminator code points of ECMAScript, in UTF-8:
    TAB, LF, VT, FF, CR, SP, U+00A0, U+1680, U+2000..U+200A, U+2028, U+2029,
    U+202F, U+205F, U+3000, U+FEFF. *)
Definition white_space : list (list ascii) :=
  map (map Ascii.ascii_of_N)
    ([ [9]; [10]; [11]; [12]; [13]; [32]; [194; 160]; [225; 154; 128] ]%N
     ++ map (fun b => [226; 128; b]%N)
          [128; 129; 130; 131; 132; 133; 134; 135; 136; 137; 138]%N
     ++ [ [226; 128; 168]; [226; 128; 169]; [226; 128; 175]; [226; 129; 159];
          [227; 128; 128]; [239; 187; 191] ]%N)%list.

Fixpoint strip_prefix (p l : list ascii) : option (list ascii) :=
  match p, l with
  | [], _ => Some l
  | _ :: _, [] => None
  | a :: p', b :: l' => if decide (a = b) then strip_prefix p' l' else None
  end.

Fixpoint strip_one (pats : list (list ascii)) (l : list ascii) : option (list ascii) :=
  match pats with
  | [] => None
  | p :: pats' =>
      match strip_prefix p l with
      | Some r => Some r
      | None => strip_one pats' l
      end
  end.

Fixpoint strip_all (fuel : nat) (pats : list (list ascii)) (l : list ascii) : list ascii :=
  match fuel with
  | O => l
  | S fuel' =>
      match strip_one pats l with
      | Some r => strip_all fuel' pats r
      | None => l
      end
  end.

Definition trimStart_bytes (l : list ascii) : list ascii :=
  strip_all (length l) white_space l.

Definition trimEnd_bytes (l : list ascii) : list ascii :=
  rev (strip_all (length l) (map (@rev ascii) white_space) (rev l)).

(** [String.prototype.trim] *)
Definition trim (s : string) : string :=
  String.string_of_list_ascii (trimEnd_bytes (trimStart_bytes (bytes s))).

(** [s.split(sep)] for a one-character separator: never an empty array. *)
Fixpoint split_bytes (sep : ascii) (l : list ascii) : list (list ascii) :=
  match l with
  | [] => [ [] ]
  | c :: l' =>
      if decide (c = sep) then [] :: split_bytes sep l'
      else match split_bytes sep l' with
           | [] => [ [c] ]
           | seg :: segs => (c :: seg) :: segs
           end
  end.

Definition split (sep : ascii) (s : string) : list string :=
  map String.string_of_list_ascii (split_bytes sep (bytes s)).

(** [Array.prototype.pop], as far as its return value goes: the last
    element, [undefined] on an empty array. *)
Definition pop (l : list string) : option string := last l.

(** [Array.prototype.join] *)
Fixpoint join (sep : string) (l : list string) : string :=
  match l with
  | [] => ""
  | [s] => s
  | s :: l' => s +:+ sep +:+ join sep l'
  end.

Definition hex_digit (n : Z) : ascii :=
  Ascii.ascii_of_N (Z.to_N (if n <? 10 then 48 + n else 55 + n)).

(** uriUnreserved: letters, digits and [- _ . ! ~ * ' ( )]. *)
Definition unreserved (c : ascii) : bool :=
  let n := code c in
  ((65 <=? n) && (n <=? 90)) || ((97 <=? n) && (n <=? 122))
  || ((48 <=? n) && (n <=? 57))
  || bool_decide (n ∈ [45; 95; 46; 33; 126; 42; 39; 40; 41]).

(** [encodeURIComponent]: every byte of the UTF-8 encoding that is not
    unreserved becomes [%XX]. *)
Fixpoint encode_bytes (l : list ascii) : list ascii :=
  match l with
  | [] => []
  | c :: l' =>
      if unreserved c then c :: encode_bytes l'
      else "%"%char :: hex_digit (code c / 16) :: hex_digit (code c mod 16)
             :: encode_bytes l'
  end.

Definition encodeURIComponent (s : string) : string :=
  String.string_of_list_ascii (encode_bytes (bytes s)).

(** Truthiness of a string: only the empty string is falsy. *)
Definition truthy (s : string) : bool := negb (bool_decide (s = "")).

(** The text does not start, after leading white space, with a minus sign. *)
Definition unsigned (s : string) : Prop :=
  head (trimStart_bytes (bytes s)) <> Some "-"%char.

End JsString.

(** ** JavaScript numbers *)

Module JsNumber.

(** The numbers the program can see: NaN, the two infinities and the
    doubles that are integers (the two zeros are not told apart: both are
    falsy and both print as 0). *)
Inductive number :=
| NaN
| Infinity (negative : bool)
| Finite (z : Z).

#[export] Instance number_eq_dec : EqDecision number.
Proof. solve_decision. Defined.

(** Round a non-negative integer to the nearest double, ties to even. *)
Definition round_mag (a : Z) : Z :=
  if a <? 2 ^ 53 then a
  else
    let e := Z.log2 a - 52 in
    let q := Z.shiftr a e in
    let r := a - Z.shiftl q e in
    let half := 2 ^ (e - 1) in
    let q' := if r <? half then q
              else if r =? half then (if Z.even q then q else q + 1)
              else q + 1 in
    Z.shiftl q' e.

(** The Number value of a mathematical integer. *)
Definition of_Z (z : Z) : number :=
  let m := round_mag (Z.abs z) in
  if 2 ^ 1024 <=? m then Infinity (z <? 0) else Finite (Z.sgn z * m).

(** Value of a character as a digit (letters stand for 10 to 35). *)
Definition digit_value (c : ascii) : option Z :=
  let n := JsString.code c in
  if (48 <=? n) && (n <=? 57) then Some (n - 48)
  else if (65 <=? n) && (n <=? 90) then Some (n - 55)
  else if (97 <=? n) && (n <=? 122) then Some (n - 87)
  else None.

(** The longest prefix of radix-[R] digits and its value; [None] when the
    prefix is empty. *)
Fixpoint digits (R : Z) (l : list ascii) (acc : option Z) : option Z :=
  match l with
  | [] => acc
  | c :: l' =>
      match digit_value c with
      | Some d =>
          if d <? R then digits R l' (Some (default 0 acc * R + d)) else acc
      | None => acc
      end
  end.

(** The steps of [parseInt] with no radix: skip leading white space, read
    a sign, read [0x] or [0X] as radix 16, take the longest prefix of
    digits, NaN when it is empty, else the double nearest to its value
    (ECMAScript lets an engine round after the 20th significant decimal
    digit; the exact value is read here, as V8 does). *)
Definition parseInt_bytes (l : list ascii) : number :=
  let inputString := JsString.trimStart_bytes l in
  let '(negative, unsigned) :=
    match inputString with
    | c :: rest =>
        if decide (c = "-"%char) then (true, rest)
        else if decide (c = "+"%char) then (false, rest)
        else (false, inputString)
    | [] => (false, inputString)
    end in
  let '(R, numeral) :=
    match unsigned with
    | c0 :: c1 :: rest =>
        if bool_decide (c0 = "0"%char)
           && (bool_decide (c1 = "x"%char) || bool_decide (c1 = "X"%char))
        then (16, rest) else (10, unsigned)
    | _ => (10, unsigned)
    end in
  match digits R numeral None with
  | None => NaN
  | Some mathInt => of_Z (if negative then - mathInt else mathInt)
  end.

(** [parseInt(string)] with no radix argument, on a string. *)
Definition parseInt (s : string) : number := parseInt_bytes (JsString.bytes s).

(** Truthiness: NaN and zero are falsy. *)
Definition truthy (n : number) : bool :=
  match n with
  | NaN => false
  | Infinity _ => true
  | Finite z => negb (z =? 0)
  end.

(** [n || d] *)
Definition or_else (n d : number) : number := if truthy n then n else d.

(** A number greater than zero: a positive integer or [Infinity]. *)
Definition positive (n : number) : Prop :=
  match n with
  | Finite z => 0 < z
  | Infinity negative => negative = false
  | NaN => False
  end.

(** Zero or a positive number. *)
Definition non_negative (n : number) : Prop :=
  match n with
  | Finite z => 0 <= z
  | Infinity negative => negative = false
  | NaN => False
  end.

(** Decimal digits of a non-negative integer. *)
Fixpoint dec_digits (fuel : nat) (z : Z) (acc : list ascii) : list ascii :=
  match fuel with
  | O => acc
  | S fuel' =>
      let acc' := Ascii.ascii_of_N (Z.to_N (48 + z mod 10)) :: acc in
      if z <? 10 then acc' else dec_digits fuel' (z / 10) acc'
  end.

Definition dec (z : Z) : list ascii := dec_digits (Z.to_nat (Z.log2 z) + 1) z [].

Fixpoint strip_zeros (fuel : nat) (z : Z) : Z :=
  match fuel with
  | O => z
  | S fuel' => if (z mod 10 =? 0) && negb (z =? 0) then strip_zeros fuel' (z / 10) else z
  end.

(** The decimal with the fewest significant digits that rounds to the
    double [x] (the one closest to [x], the even one on a tie), searched by
    increasing digit count [k]; [x] itself when nothing shorter is found. *)
Fixpoint shortest (fuel : nat) (k n x : Z) : Z :=
  match fuel with
  | O => x
  | S fuel' =>
      let p := 10 ^ (n - k) in
      let v0 := (x / p) * p in
      let v1 := v0 + p in
      let ok0 := round_mag v0 =? x in
      let ok1 := round_mag v1 =? x in
      if ok0 && ok1 then
        (if x - v0 <? v1 - x then v0
         else if v1 - x <? x - v0 then v1
         else if Z.even (x / p) then v0 else v1)
      else if ok0 then v0
      else if ok1 then v1
      else shortest fuel' (k + 1) n x
  end.

(** Number::toString of a positive integer-valued double. *)
Definition pos_to_bytes (x : Z) : list ascii :=
  let n := Z.of_nat (length (dec x)) in
  let v := if x <? 2 ^ 53 then x else shortest (Z.to_nat n) 1 n x in
  let n := Z.of_nat (length (dec v)) in
  if n <=? 21 then dec v
  else
    let s := dec (strip_zeros (Z.to_nat n) v) in
    match s with
    | [] => []
    | d :: ds =>
        ((d :: match ds with [] => [] | _ => "."%char :: ds end)
         ++ "e"%char :: "+"%char :: dec (n - 1))%list
    end.

(** Number::toString, radix 10. *)
Definition to_string (n : number) : string :=
  match n with
  | NaN => "NaN"
  | Infinity negative => if negative then "-Infinity" else "Infinity"
  | Finite z =>
      if z =? 0 then "0"
      else if z <? 0 then String.string_of_list_ascii ("-"%char :: pos_to_bytes (- z))
      else String.string_of_list_ascii (pos_to_bytes z)
  end.

End JsNumber.

(** ** JavaScript values the program builds and receives *)

Module Js.
Import JsNumber.

(** Values built from object literals, arrays, strings, numbers and
    booleans, and [undefined]; an object keeps its keys in the order of the
    literal. *)
#[warnings="-register-all"]
Inductive value :=
| VUndefined
| VNum (n : number)
| VStr (s : string)
| VBool (b : bool)
| VArr (items : list value)
| VObj (fields : list (string * value)).

Fixpoint assoc (k : string) (fields : list (string * value)) : option value :=
  match fields with
  | [] => None
  | (k', v) :: fields' => if decide (k = k') then Some v else assoc k fields'
  end.

(** Own property [k] of [o]: [None] when [o] has no such property. *)
Definition get (k : string) (o : value) : option value :=
  match o with
  | VObj fields => assoc k fields
  | _ => None
  end.

(** [o.k1.k2...]: follow a path of own properties. *)
Fixpoint dig (ks : list string) (o : value) : option value :=
  match ks with
  | [] => Some o
  | k :: ks' => get k o ≫= dig ks'
  end.

(** [a[i]] *)
Definition index (i : nat) (a : value) : option value :=
  match a with
  | VArr items => items !! i
  | _ => None
  end.

(** A value of [req.query]: a string, or an array of strings when the
    parameter is repeated in the URL. *)
Inductive qval :=
| QStr (s : string)
| QArr (l : list string).

(** A destructured parameter; [None] is [undefined]. *)
Definition param : Type := option qval.

(** ToString *)
Definition qval_to_string (v : qval) : string :=
  match v with
  | QStr s => s
  | QArr l => JsString.join "," l
  end.

Definition to_string (p : param) : string :=
  match p with
  | None => "undefined"
  | Some v => qval_to_string v
  end.

(** ToBoolean: [undefined] and the empty string are falsy, every array
    is truthy. *)
Definition truthy (p : param) : bool :=
  match p with
  | None => false
  | Some (QStr s) => JsString.truthy s
  | Some (QArr _) => true
  end.

Definition to_value (p : param) : value :=
  match p with
  | None => VUndefined
  | Some (QStr s) => VStr s
  | Some (QArr l) => VArr (map VStr l)
  end.

(** [p === s] for a string literal [s]: no conversion takes place, so an
    array or [undefined] is never equal to it. *)
Definition strict_eq (p : param) (s : string) : bool :=
  match p with
  | Some (QStr s') => bool_decide (s' = s)
  | _ => false
  end.

(** [v || d] for a string or [undefined] on the left. *)
Definition or_str (v : option string) (d : string) : string :=
  match v with
  | Some s => if JsString.truthy s then s else d
  | None => d
  end.

End Js.

(** ** Effects: the network, the console and exceptions *)

Module Effect.

(** A thrown [Error]; the program reads nothing but its message. *)
Record Error := mkError { message : string }.

(** What [fetch] hands back once its promise settles. *)
Record Response := mkResponse {
  status : Z;
  statusText : string;
  (** [await response.text()]: the body, or the error it rejects with *)
  body_text : Error + string;
}.

(** [response.ok] *)
Definition ok (r : Response) : bool := (200 <=? status r) && (status r <=? 299).

Inductive fetch_result :=
| Rejected (e : Error)
| Resolved (r : Response).

Inductive event :=
| Fetch (url : string) (headers : list (string * string))
| ConsoleError (label : string) (e : Error).

Inductive outcome (A : Type) :=
| Return (a : A)
| Throw (e : Error).
Arguments Return {A} a.
Arguments Throw {A} e.

(** A computation extends the trace of events and returns or throws. *)
Definition M (A : Type) : Type := list event -> outcome A * list event.

Definition ret {A} (a : A) : M A := fun tr => (Return a, tr).

Definition bind {A B} (m : M A) (k : A -> M B) : M B :=
  fun tr =>
    match m tr with
    | (Return a, tr') => k a tr'
    | (Throw e, tr') => (Throw e, tr')
    end.

Definition throw {A} (e : Error) : M A := fun tr => (Throw e, tr).

(** [try { m } catch (error) { h error }] *)
Definition try_catch {A} (m : M A) (h : Error -> M A) : M A :=
  fun tr =>
    match m tr with
    | (Return a, tr') => (Return a, tr')
    | (Throw e, tr') => h e tr'
    end.

Definition emit (ev : event) : M unit := fun tr => (Return tt, (tr ++ [ev])%list).

(** [console.error(label, error)] *)
Definition console_error (label : string) (e : Error) : M unit :=
  emit (ConsoleError label e).

(** Lift a settled promise: a rejection is thrown at the [await]. *)
Definition await {A} (r : Error + A) : M A :=
  match r with
  | inl e => throw e
  | inr a => ret a
  end.

(** The URLs requested upstream in a trace, in order. *)
Definition fetched (tr : list event) : list string :=
  omap (fun ev => match ev with Fetch url _ => Some url | _ => None end) tr.

End Effect.

Declare Scope js_scope.
Delimit Scope js_scope with js.
Notation "'let*' x := m 'in' k" := (Effect.bind m (fun x => k))
  (at level 10, x name, m at level 100, k at level 200) : js_scope.
Notation "m ;; k" := (Effect.bind m (fun _ => k))
  (at level 100, k at level 200, right associativity) : js_scope.

(** ** The cheerio interface

    The part of cheerio the program calls. [dom] is what [cheerio.load]
    returns (the function written [$] in the source), [selection] a cheerio
    object, [node] an element handed to the callbacks of [.each] and
    [.map]. The selectors of the program are constants that cheerio
    accepts, so no operation throws. The four laws say what cheerio does on
    a selection that matched nothing. *)
Class Cheerio := {
  dom : Type;
  node : Type;
  selection : Type;
  (** [cheerio.load(html)] *)
  load : string -> dom;
  (** [$(selector)] *)
  select : dom -> string -> selection;
  (** [$(el)] *)
  wrap : dom -> node -> selection;
  (** [.find(selector)] *)
  find : selection -> string -> selection;
  (** [.next()] *)
  next : selection -> selection;
  (** the elements of a selection, in the order [.each] and [.map] visit them *)
  toArray : selection -> list node;
  (** [.attr(name)]: [None] is [undefined] *)
  attr : selection -> string -> option string;
  (** [.text()] *)
  text : selection -> string;
  attr_empty : forall s name, toArray s = [] -> attr s name = None;
  text_empty : forall s, toArray s = [] -> text s = "";
  find_empty : forall s sel, toArray s = [] -> toArray (find s sel) = [];
  next_empty : forall s, toArray s = [] -> toArray (next s) = [];
}.

(** ** The HTTP request and response objects of the platform *)

Record Request := mkRequest {
  (** [req.method] *)
  req_method : string;
  (** [req.query] *)
  req_query : gmap string Js.qval;
}.

Inductive body :=
| EmptyBody
| JsonBody (v : Js.value).

Record ServerResponse := mkServerResponse {
  headers : gmap string string;
  statusCode : Z;
  (** [None] until [end] or [json] is called *)
  sent : option body;
}.

Module Res.

Definition setHeader (name val : string) (res : ServerResponse) : ServerResponse :=
  {| headers := <[name := val]> (headers res);
     statusCode := statusCode res; sent := sent res |}.

Definition status (code : Z) (res : ServerResponse) : ServerResponse :=
  {| headers := headers res; statusCode := code; sent := sent res |}.

Definition end_ (res : ServerResponse) : ServerResponse :=
  {| headers := headers res; statusCode := statusCode res; sent := Some EmptyBody |}.

(** [res.json(v)]: the body is kept as the value handed over; writing it
    out as text is the platform's business. *)
Definition json (v : Js.value) (res : ServerResponse) : ServerResponse :=
  {| headers := headers res; statusCode := statusCode res; sent := Some (JsonBody v) |}.

End Res.

(** ** The program *)

Module Anime.
Import JsNumber Js Effect.
Local Open Scope js_scope.

Definition BASE_URL : string := "https://hianime.to".

Definition request_headers : list (string * string) :=
  [ ("User-Agent", "Mozilla/5.0 (Windows NT 10.0; Win64; x64) AppleWebKit/537.36");
    ("Accept", "text/html,application/xhtml+xml,application/xml;q=0.9,*/*;q=0.8");
    ("Accept-Language", "en-US,en;q=0.5");
    ("Referer", BASE_URL) ].

(** [.item-title:contains("Type:")] and [.item-title:contains("Status:")] *)
Definition item_title_contains (label : string) : string :=
  ".item-title:contains(" +:+ JsString.dquote +:+ label +:+ JsString.dquote +:+ ")".

Section Program.

(** The upstream site: what [fetch] of a URL settles to. *)
Variable upstream : string -> fetch_result.
(** What [new Date().toISOString()] returns during the request. *)
Variable now : string.
Context `{Cheerio}.

(** [await fetch(url, { headers })] *)
Definition fetch (url : string) (hdrs : list (string * string)) : M Response :=
  emit (Fetch url hdrs) ;;
  match upstream url with
  | Rejected e => throw e
  | Resolved r => ret r
  end.

(** What one request to the upstream comes to for [fetchFromHiAnime]:
    the markup, or the error that is thrown (a rejected [fetch], a status
    outside 200..299, or a body that cannot be read). *)
Definition settle (url : string) : Error + string :=
  match upstream url with
  | Rejected e => inl e
  | Resolved r =>
      if ok r then body_text r
      else inl (mkError ("HTTP " +:+ JsNumber.to_string (Finite (status r))
                         +:+ ": " +:+ statusText r))
  end.

Definition fetchFromHiAnime (path : string) : M string :=
  try_catch
    (let* response := fetch (BASE_URL +:+ path) request_headers in
     if negb (ok response) then
       throw (mkError ("HTTP " +:+ JsNumber.to_string (Finite (status response))
                       +:+ ": " +:+ statusText response))
     else await (body_text response))
    (fun error =>
       console_error "Fetch error:" error ;;
       throw error).

(** [href?.split('/').pop() || ''] *)
Definition last_segment (href : option string) : string :=
  or_str (href ≫= fun h => JsString.pop (JsString.split "/" h)) "".

(** [parseInt(sel.text()) || 0] *)
Definition count (sel : selection) : number :=
  or_else (parseInt (text sel)) (Finite 0).

Definition spotlight_item (dollar : dom) (i : nat) (el : node) : value :=
  VObj [ ("id", VStr (last_segment (attr (find (wrap dollar el) "a") "href")));
         ("title", VStr (JsString.trim (text (find (wrap dollar el) ".deslide-item-content h2"))));
         ("description",
          VStr (JsString.trim (text (find (wrap dollar el) ".deslide-item-content .sc-desc"))));
         ("poster", VStr (or_str (attr (find (wrap dollar el) ".deslide-cover img") "src") ""));
         ("rank", VNum (Finite (Z.of_nat i + 1))) ].

Definition trending_item (dollar : dom) (i : nat) (el : node) : value :=
  VObj [ ("id", VStr (last_segment (attr (find (wrap dollar el) "a.film-poster") "href")));
         ("title", VStr (JsString.trim (text (find (wrap dollar el) ".film-name"))));
         ("poster", VStr (or_str (attr (find (wrap dollar el) ".film-poster-img") "data-src") ""));
         ("type", VStr (JsString.trim (text (find (wrap dollar el) ".fdi-item:first"))));
         ("duration", VStr (JsString.trim (text (find (wrap dollar el) ".fdi-duration")))) ].

(** The object [getHomePage] returns, from the loaded page. *)
Definition home_result (dollar : dom) : value :=
  let spotlight := imap (spotlight_item dollar) (toArray (select dollar ".deslide-item")) in
  let trending :=
    imap (trending_item dollar)
      (toArray (select dollar "#trending-home .film_list-wrap .flw-item")) in
  VObj [ ("success", VBool true);
         ("data", VObj [ ("spotlight", VArr spotlight);
                         ("trending", VArr trending);
                         ("timestamp", VStr now) ]) ].

Definition getHomePage : M value :=
  let* html := fetchFromHiAnime "/home" in
  let dollar := load html in
  ret (home_result dollar).

Definition result_item (dollar : dom) (i : nat) (el : node) : value :=
  VObj [ ("id", VStr (last_segment (attr (find (wrap dollar el) "a.film-poster") "href")));
         ("title", VStr (JsString.trim (text (find (wrap dollar el) ".film-name"))));
         ("poster", VStr (or_str (attr (find (wrap dollar el) ".film-poster-img") "data-src") ""));
         ("type", VStr (JsString.trim (text (find (wrap dollar el) ".fdi-item:first"))));
         ("duration", VStr (JsString.trim (text (find (wrap dollar el) ".fdi-duration"))));
         ("episodes", VObj [ ("sub", VNum (count (find (wrap dollar el) ".tick-sub")));
                             ("dub", VNum (count (find (wrap dollar el) ".tick-dub"))) ]) ].

(** The object [searchAnime] returns, from the loaded page. *)
Definition search_result (dollar : dom) (query : param) (page : number) : value :=
  let results := imap (result_item dollar) (toArray (select dollar ".flw-item")) in
  VObj [ ("success", VBool true);
         ("data", VObj [ ("results", VArr results);
                         ("currentPage", VNum page);
                         ("query", to_value query) ]) ].

Definition search_path (query : param) (page : number) : string :=
  "/search?keyword=" +:+ JsString.encodeURIComponent (to_string query)
  +:+ "&page=" +:+ JsNumber.to_string page.

(** [searchAnime(query, page = 1)]: [page] is [None] when the argument is
    left out. *)
Definition searchAnime (query : param) (page : option number) : M value :=
  let page := default (Finite 1) page in
  let* html := fetchFromHiAnime (search_path query page) in
  let dollar := load html in
  ret (search_result dollar query page).

(** The object [getAnimeDetails] returns, from the loaded page. *)
Definition details_result (dollar : dom) (animeId : param) : value :=
  VObj
    [ ("success", VBool true);
      ("data", VObj
         [ ("id", to_value animeId);
           ("title", VStr (JsString.trim (text (select dollar ".film-name"))));
           ("poster", VStr (or_str (attr (select dollar ".film-poster-img") "src") ""));
           ("description", VStr (JsString.trim (text (select dollar ".film-description"))));
           ("type", VStr (JsString.trim
                            (text (next (select dollar (item_title_contains "Type:"))))));
           ("status", VStr (JsString.trim
                              (text (next (select dollar (item_title_contains "Status:"))))));
           ("genres", VArr (map (fun el => VStr (JsString.trim (text (wrap dollar el))))
                              (toArray (select dollar ".item-list a"))));
           ("episodes", VObj [ ("sub", VNum (count (select dollar ".tick-sub")));
                               ("dub", VNum (count (select dollar ".tick-dub"))) ]) ]) ].

Definition details_path (animeId : param) : string := "/" +:+ to_string animeId.

Definition getAnimeDetails (animeId : param) : M value :=
  let* html := fetchFromHiAnime (details_path animeId) in
  let dollar := load html in
  ret (details_result dollar animeId).

(** The static listing of the [default] branch. *)
Definition endpoints : value :=
  VObj [ ("success", VBool true);
         ("message", VStr "HiAnime API - Available endpoints");
         ("endpoints", VArr
            [ VObj [ ("path", VStr "/api/hianime?action=home");
                     ("description", VStr "Get homepage content") ];
              VObj [ ("path", VStr "/api/hianime?action=search&query=naruto&page=1");
                     ("description", VStr "Search anime") ];
              VObj [ ("path", VStr "/api/hianime?action=details&id=naruto-20");
                     ("description", VStr "Get anime details") ] ]) ].

Definition failure (msg : string) : value :=
  VObj [ ("success", VBool false); ("error", VStr msg) ].

Definition handler (req : Request) (res : ServerResponse) : M ServerResponse :=
  let res := Res.setHeader "Access-Control-Allow-Origin" "*" res in
  let res := Res.setHeader "Access-Control-Allow-Methods" "GET, OPTIONS" res in
  let res := Res.setHeader "Access-Control-Allow-Headers" "Content-Type" res in
  if bool_decide (req_method req = "OPTIONS") then ret (Res.end_ (Res.status 200 res))
  else
    try_catch
      (let action : param := req_query req !! "action" in
       let query : param := req_query req !! "query" in
       let page : param := req_query req !! "page" in
       let id : param := req_query req !! "id" in
       if strict_eq action "home" then
         let* homeData := getHomePage in
         ret (Res.json homeData (Res.status 200 res))
       else if strict_eq action "search" then
         if negb (truthy query) then
           ret (Res.json (failure "Query parameter required") (Res.status 400 res))
         else
           let* searchData :=
             searchAnime query (Some (or_else (parseInt (to_string page)) (Finite 1))) in
           ret (Res.json searchData (Res.status 200 res))
       else if strict_eq action "details" then
         if negb (truthy id) then
           ret (Res.json (failure "ID parameter required") (Res.status 400 res))
         else
           let* detailsData := getAnimeDetails id in
           ret (Res.json detailsData (Res.status 200 res))
       else
         ret (Res.json endpoints (Res.status 200 res)))
      (fun error =>
         console_error "API Error:" error ;;
         ret (Res.json (failure (or_str (Some (message error)) "Internal server error"))
                (Res.status 500 res))).

(** Vocabulary for the statements below. *)

(** The three header writes that open [handler]. *)
Definition cors (res : ServerResponse) : ServerResponse :=
  Res.setHeader "Access-Control-Allow-Headers" "Content-Type"
    (Res.setHeader "Access-Control-Allow-Methods" "GET, OPTIONS"
       (Res.setHeader "Access-Control-Allow-Origin" "*" res)).

(** The request with parameter [k] removed from its query string. *)
Definition without (k : string) (req : Request) : Request :=
  mkRequest (req_method req) (delete k (req_query req)).

(** The envelope of a failure. *)
Definition error_envelope (msg : string) : body :=
  JsonBody (VObj [ ("success", VBool false); ("error", VStr msg) ]).

(** The page number [handler] hands to [searchAnime]. *)
Definition page_of (req : Request) : number :=
  or_else (parseInt (to_string (req_query req !! "page"))) (Finite 1).

(** The URL a request asks the upstream for: that of its extractor when
    the action is one of the three and its parameter is there. *)
Definition requested (req : Request) : option string :=
  let action := req_query req !! "action" in
  if strict_eq action "home" then Some (BASE_URL +:+ "/home")
  else if strict_eq action "search" then
    if truthy (req_query req !! "query")
    then Some (BASE_URL +:+ search_path (req_query req !! "query") (page_of req))
    else None
  else if strict_eq action "details" then
    if truthy (req_query req !! "id")
    then Some (BASE_URL +:+ details_path (req_query req !! "id"))
    else None
  else None.

(** What [handler] answers once an extractor has asked for [url]: 200 with
    the extractor's object, or 500 with the message of the error. *)
Definition answer (res : ServerResponse) (url : string) (result : string -> value)
    (tr : list event) : outcome ServerResponse * list event :=
  match settle url with
  | inl e =>
      (Return (Res.json (failure (or_str (Some (message e)) "Internal server error"))
                 (Res.status 500 (cors res))),
       (tr ++ [ Fetch url request_headers; ConsoleError "Fetch error:" e;
                ConsoleError "API Error:" e ])%list)
  | inr html =>
      (Return (Res.json (result html) (Res.status 200 (cors res))),
       (tr ++ [ Fetch url request_headers ])%list)
  end.

(** The request for [url] fails with error [e]: the network call fails,
    the upstream answers with a status outside 200..299, or the body
    cannot be read. *)
Inductive fails (url : string) : Error -> Prop :=
| fails_rejected (e : Error) :
    upstream url = Rejected e -> fails url e
| fails_status (r : Response) :
    upstream url = Resolved r -> ok r = false ->
    fails url (mkError ("HTTP " +:+ JsNumber.to_string (Finite (status r))
                        +:+ ": " +:+ statusText r))
| fails_body (r : Response) (e : Error) :
    upstream url = Resolved r -> ok r = true -> body_text r = inl e -> fails url e.

(** The request for [url] is served the markup [html]: the upstream
    answers with a status in 200..299 and a body that reads as [html]. *)
Definition serves (url html : string) : Prop :=
  exists r, upstream url = Resolved r /\ ok r = true /\ body_text r = inr html.

(** A selection that matched nothing. *)
Definition absent (s : selection) : Prop := toArray s = [].

(** [entries] has one entry per node, in the order of the nodes: the one
    at position [i] is built from the node at position [i]. *)
Definition one_per_node (nodes : list node) (entry : nat -> node -> value)
    (entries : list value) : Prop :=
  length entries = length nodes
  /\ forall i el, nodes !! i = Some el -> entries !! i = Some (entry i el).

End Program.

End Anime.

(** ** A cheerio over rose trees

    A small implementation of the interface, used to run the program on
    concrete pages: documents are forests of elements and text, a node is
    the path of an element from the top, and selectors are the fragment of
    CSS the program uses (tag, [.class], [#id], [:contains("...")],
    [:first], descendant combinator). [load] recognises the markup of the
    registered pages. *)

Module Fixture.

#[warnings="-register-all"]
Inductive tree :=
| Text (s : string)
| Elem (tag : string) (attrs : list (string * string)) (kids : list tree).

Definition path : Type := list nat.

Fixpoint text_of (t : tree) : string :=
  match t with
  | Text s => s
  | Elem _ _ kids =>
      (fix go (l : list tree) : string :=
         match l with
         | [] => ""
         | k :: l' => text_of k +:+ go l'
         end) kids
  end.

(** Markup of a tree. *)
Fixpoint render (t : tree) : string :=
  match t with
  | Text s => s
  | Elem tag attrs kids =>
      "<" +:+ tag
      +:+ foldr (fun '(k, v) acc =>
                   " " +:+ k +:+ "=" +:+ JsString.dquote +:+ v +:+ JsString.dquote +:+ acc)
            "" attrs
      +:+ ">"
      +:+ (fix go (l : list tree) : string :=
             match l with
             | [] => ""
             | k :: l' => render k +:+ go l'
             end) kids
      +:+ "</" +:+ tag +:+ ">"
  end.

Definition render_page (f : list tree) : string :=
  foldr (fun t acc => render t +:+ acc) "" f.

(** Paths of the elements of [t], itself at path [here], in document order. *)
Fixpoint elements_of (t : tree) (here : path) : list path :=
  match t with
  | Text _ => []
  | Elem _ _ kids =>
      here :: (fix go (l : list tree) (i : nat) : list path :=
                 match l with
                 | [] => []
                 | k :: l' => (elements_of k (here ++ [i]) ++ go l' (S i))%list
                 end) kids O
  end.

Definition elements (f : list tree) : list path :=
  concat (imap (fun i t => elements_of t [i]) f).

Fixpoint at_path (f : list tree) (p : path) : option tree :=
  match p with
  | [] => None
  | i :: p' =>
      match f !! i with
      | Some t =>
          match p', t with
          | [], _ => Some t
          | _, Elem _ _ kids => at_path kids p'
          | _, Text _ => None
          end
      | None => None
      end
  end.

Inductive simple :=
| Tag (name : string)
| Class (name : string)
| Id (name : string)
| Contains (needle : string)
| First
| Unsupported.

#[export] Instance simple_eq_dec : EqDecision simple.
Proof. solve_decision. Defined.

(** Does [needle] occur in [s]? *)
Fixpoint occurs (needle s : list ascii) : bool :=
  match JsString.strip_prefix needle s with
  | Some _ => true
  | None => match s with [] => false | _ :: s' => occurs needle s' end
  end.

Definition attr_of (t : tree) (name : string) : option string :=
  match t with
  | Elem _ attrs _ => (fun r => r.2.2) <$> list_find (fun kv => kv.1 = name) attrs
  | Text _ => None
  end.

Definition holds (t : tree) (s : simple) : bool :=
  match t, s with
  | Elem tag _ _, Tag name => bool_decide (tag = name)
  | Elem _ _ _, Class name =>
      match attr_of t "class" with
      | Some cs => bool_decide (name ∈ JsString.split " " cs)
      | None => false
      end
  | Elem _ _ _, Id name => bool_decide (attr_of t "id" = Some name)
  | Elem _ _ _, Contains needle => occurs (JsString.bytes needle) (JsString.bytes (text_of t))
  | Elem _ _ _, First => true
  | _, _ => false
  end.

Abbreviation compound := (list simple).

Definition satisfies (f : list tree) (c : compound) (p : path) : bool :=
  match at_path f p with
  | Some t => forallb (holds t) c
  | None => false
  end.

(** [q] lies strictly below [p]. *)
Definition below (p q : path) : bool :=
  bool_decide (p `prefix_of` q) && bool_decide (p ≠ q).

(** [p] matches the descendant chain (last compound first) with every
    matched ancestor strictly below [scope]. *)
Fixpoint matches (f : list tree) (scope : path) (rev_chain : list compound) (p : path) : bool :=
  match rev_chain with
  | [] => true
  | c :: rest =>
      satisfies f c p
      && match rest with
         | [] => true
         | _ => existsb (fun q => below scope q && below q p && matches f scope rest q)
                  (elements f)
         end
  end.

(** State of the scanner of one compound selector. *)
Inductive kind := KTag | KClass | KId | KPseudo.

Definition flush (k : kind) (buf : list ascii) : compound :=
  let s := String.string_of_list_ascii (rev buf) in
  match k with
  | KTag => if bool_decide (s = "") then [] else [Tag s]
  | KClass => [Class s]
  | KId => [Id s]
  | KPseudo =>
      if bool_decide (s = "first") then [First]
      else match JsString.strip_prefix (JsString.bytes "contains(") (rev buf) with
           | Some arg =>
               match rev arg with
               | c :: inner =>
                   if bool_decide (c = ")"%char)
                   then [Contains (String.string_of_list_ascii (rev inner))]
                   else [Unsupported]
               | [] => [Unsupported]
               end
           | None => [Unsupported]
           end
  end.

Fixpoint scan (l : list ascii) (k : kind) (buf : list ascii) (quoted : bool) : compound :=
  match l with
  | [] => flush k buf
  | c :: l' =>
      if bool_decide (JsString.code c = 34) then scan l' k buf (negb quoted)
      else if quoted then scan l' k (c :: buf) quoted
      else if bool_decide (c = "."%char) then (flush k buf ++ scan l' KClass [] false)%list
      else if bool_decide (c = "#"%char) then (flush k buf ++ scan l' KId [] false)%list
      else if bool_decide (c = ":"%char) then (flush k buf ++ scan l' KPseudo [] false)%list
      else scan l' k (c :: buf) quoted
  end.

(** The chain of compounds of a selector, last first. *)
Definition parse (sel : string) : list compound :=
  rev (map (fun s => scan (JsString.bytes s) KTag [] false)
         (filter (fun s => s ≠ "") (JsString.split " " sel))).

(** Elements strictly below one of [scopes] that match [sel], in document
    order; [:first] in the last compound keeps the first of them. *)
Definition query_all (f : list tree) (scopes : list path) (sel : string) : list path :=
  let chain := parse sel in
  let hits :=
    filter (fun p => Is_true (existsb (fun s => below s p && matches f s chain p) scopes))
      (elements f) in
  match chain with
  | c :: _ => if bool_decide (First ∈ c) then take 1 hits else hits
  | [] => []
  end.

(** The element sibling that follows [p], if any. *)
Definition next_sibling (f : list tree) (p : path) : option path :=
  list_find (fun q => length q = length p ∧ removelast q = removelast p
                      ∧ (List.last p O < List.last q O)%nat) (elements f)
  ≫= fun r => Some r.2.

(** A cheerio object: the document and the paths of the selected elements. *)
Record matched := mkMatched { doc : list tree; nodes : list path }.

Definition sel_text (s : matched) : string :=
  foldr (fun p acc => from_option text_of "" (at_path (doc s) p) +:+ acc) "" (nodes s).

Definition sel_attr (s : matched) (name : string) : option string :=
  head (nodes s) ≫= fun p => at_path (doc s) p ≫= fun t => attr_of t name.

Lemma filter_none {A} (P : A -> Prop) `{!forall x, Decision (P x)} (l : list A) :
  (forall x, ~ P x) -> filter P l = [].
Proof.
  intros HP. induction l as [|x l IH]; [reflexivity|].
  rewrite filter_cons. destruct (decide (P x)) as [Hx|_]; [destruct (HP x Hx)|exact IH].
Qed.

Lemma query_all_no_scope (f : list tree) (sel : string) : query_all f [] sel = [].
Proof.
  unfold query_all. destruct (parse sel) as [|c chain]; [reflexivity|].
  simpl. rewrite filter_none by (intros ? []).
  destruct (bool_decide (First ∈ c)); reflexivity.
Qed.

Section Pages.

(** The pages whose markup [load] recognises. *)
Variable pages : list (list tree).

Definition load_page (html : string) : list tree :=
  default [] ((fun r => r.2) <$> list_find (fun f => render_page f = html) pages).

#[export, refine] Instance cheerio : Cheerio := {|
  dom := list tree;
  node := path;
  selection := matched;
  load := load_page;
  select f sel := mkMatched f (query_all f [ [] ] sel);
  wrap f p := mkMatched f [p];
  find s sel := mkMatched (doc s) (query_all (doc s) (nodes s) sel);
  next s := mkMatched (doc s) (omap (next_sibling (doc s)) (nodes s));
  toArray := nodes;
  attr := sel_attr;
  text := sel_text;
|}.
Proof.
  - intros [f ns] name; simpl; intros ->; reflexivity.
  - intros [f ns]; simpl; intros ->; reflexivity.
  - intros [f ns] sel; simpl; intros ->. apply query_all_no_scope.
  - intros [f ns]; simpl; intros ->; reflexivity.
Defined.

End Pages.
End Fixture.

(** ** Sample pages and a sample upstream *)

Module Sample.
Import JsNumber Js Effect Fixture.

Definition slide (href title desc src : string) : tree :=
  Elem "div" [("class", "deslide-item")]
    [ Elem "div" [("class", "deslide-cover")] [ Elem "img" [("src", src)] [] ];
      Elem "div" [("class", "deslide-item-content")]
        [ Elem "h2" [] [Text title];
          Elem "div" [("class", "sc-desc")] [Text desc];
          Elem "a" [("href", href)] [Text "Watch now"] ] ].

Definition card (href name img kind dur sub dub : string) : tree :=
  Elem "div" [("class", "flw-item")]
    [ Elem "a" [("class", "film-poster"); ("href", href)]
        [ Elem "img" [("class", "film-poster-img lazyload"); ("data-src", img)] [];
          Elem "div" [("class", "tick tick-sub")] [Text sub];
          Elem "div" [("class", "tick tick-dub")] [Text dub] ];
      Elem "h3" [("class", "film-name")] [Text name];
      Elem "span" [("class", "fdi-item")] [Text kind];
      Elem "span" [("class", "fdi-item fdi-duration")] [Text dur] ].

(** A card with nothing in it. *)
Definition bare_card : tree := Elem "div" [("class", "flw-item")] [].

Definition home : list tree :=
  [ Elem "div" [("id", "slider")]
      [ slide "/watch/frieren-18542" " Frieren " "An elf mage." "frieren.jpg";
        slide "/one-piece-100" "One Piece" "Pirates." "op.jpg";
        slide "/naruto-20" "Naruto" "Ninjas." "naruto.jpg" ];
    Elem "div" [("id", "trending-home")]
      [ Elem "div" [("class", "film_list-wrap")]
          [ card "/one-piece-100" "One Piece" "op.jpg" "TV" "24m" "1100" "1085";
            card "/naruto-20" "Naruto" "naruto.jpg" "TV" "23m" "220" "220" ] ] ].

Definition search : list tree :=
  [ Elem "div" [("class", "film_list-wrap")]
      [ card "/one-piece-100" "One Piece" "op.jpg" "TV" "24m" "1100" "1085";
        card "/one-piece-film-red-18236" "One Piece Film: Red" "red.jpg" "Movie" "1h 55m"
          "-3" "12 eps";
        bare_card ] ].

(** A title page whose own links name another title. *)
Definition details : list tree :=
  [ Elem "h2" [("class", "film-name")] [Text " Naruto "];
    Elem "img" [("class", "film-poster-img"); ("src", "naruto.jpg")] [];
    Elem "a" [("class", "film-poster"); ("href", "/some-other-title-7")] [Text "Watch"];
    Elem "div" [("class", "film-description")] [Text "Ninjas."];
    Elem "div" [("class", "item")]
      [ Elem "span" [("class", "item-title")] [Text "Type:"];
        Elem "span" [("class", "name")] [Text "TV"] ];
    Elem "div" [("class", "item")]
      [ Elem "span" [("class", "item-title")] [Text "Status:"];
        Elem "span" [("class", "name")] [Text "Finished Airing"] ];
    Elem "div" [("class", "item item-list")]
      [ Elem "a" [] [Text "Action"]; Elem "a" [] [Text "Adventure"];
        Elem "a" [] [Text "Action"] ];
    Elem "div" [("class", "tick-sub")] [Text "220"] ].

(** A page on which no selector of the program matches. *)
Definition blank : list tree := [ Elem "p" [] [Text "Nothing here."] ].

Definition pages : list (list tree) := [home; search; details; blank].

Definition served (f : list tree) : fetch_result :=
  Resolved (mkResponse 200 "OK" (inr (render_page f))).

Definition routes : list (string * fetch_result) :=
  [ ("https://hianime.to/home", served home);
    ("https://hianime.to/search?keyword=one%20piece&page=1", served search);
    ("https://hianime.to/search?keyword=one%20piece&page=2", served search);
    ("https://hianime.to/search?keyword=one%20piece&page=-5", served search);
    ("https://hianime.to/search?keyword=nothing&page=1", served blank);
    ("https://hianime.to/naruto-20", served details);
    ("https://hianime.to/blank", served blank);
    ("https://hianime.to/gone", Resolved (mkResponse 404 "Not Found" (inr "Not Found"))) ].

(** Every other URL cannot be reached. *)
Definition upstream (url : string) : fetch_result :=
  default (Rejected (mkError "fetch failed"))
    ((fun r => r.2.2) <$> list_find (fun kv => kv.1 = url) routes).

Definition now : string := "2026-01-01T00:00:00.000Z".

Definition res0 : ServerResponse := mkServerResponse ∅ 200 None.

Definition get_request (params : list (string * qval)) : Request :=
  mkRequest "GET" (list_to_map params).

(** The sample run of [handler]: the response and the trace. *)
Definition run (req : Request) : outcome ServerResponse * list event :=
  Anime.handler upstream now (H := cheerio pages) req res0 [].

(** The JSON body of a response, if it has one. *)
Definition json_of (o : outcome ServerResponse) : option value :=
  match o with
  | Return res =>
      match sent res with
      | Some (JsonBody v) => Some v
      | _ => None
      end
  | Throw _ => None
  end.

End Sample.

(** * The JavaScript primitives on known inputs *)

Module JsExamples.
Import JsString JsNumber.

Example trim_spaces : trim "  One Piece " = "One Piece".
Proof. reflexivity. Qed.

Example trim_unicode :
  trim (of_bytes [194; 160; 10; 65; 226; 128; 168; 9]%N) = "A".
Proof. reflexivity. Qed.

Example split_path : split "/" "/watch/one-piece-100" = [""; "watch"; "one-piece-100"].
Proof. reflexivity. Qed.

Example split_empty : split "/" "" = [""].
Proof. reflexivity. Qed.

Example pop_trailing_slash : pop (split "/" "/one-piece-100/") = Some "".
Proof. reflexivity. Qed.

Example encode_query : encodeURIComponent "one piece/&'()" = "one%20piece%2F%26'()".
Proof. reflexivity. Qed.

Example parseInt_table :
  map parseInt [ "12"; "  -3x"; "0x1F"; "0x"; "abc"; ""; "12abc"; "+7"; "-0"; "1e3";
                 "2,3"; "undefined"; "00012"; "- 3"; "9007199254740993" ]
  = [ Finite 12; Finite (-3); Finite 31; NaN; NaN; NaN; Finite 12; Finite 7; Finite 0;
      Finite 1; Finite 2; NaN; Finite 12; NaN; Finite 9007199254740992 ].
Proof. vm_compute. reflexivity. Qed.

Example of_Z_largest : of_Z (2 ^ 1024 - 2 ^ 970 - 1) = Finite (2 ^ 1024 - 2 ^ 971).
Proof. vm_compute. reflexivity. Qed.

Example of_Z_overflow : of_Z (- (2 ^ 1024 - 2 ^ 970)) = Infinity true.
Proof. vm_compute. reflexivity. Qed.

Example to_string_table :
  map (fun s => to_string (parseInt s))
    [ "2"; "-5"; "0"; "x"; "9007199254740993"; "1152921504606846976";
      "999999999999999999999"; "123456789012345678901234567890" ]
  = [ "2"; "-5"; "0"; "NaN"; "9007199254740992"; "1152921504606847000"; "1e+21";
      "1.2345678901234568e+29" ].
Proof. vm_compute. reflexivity. Qed.

Example to_string_largest : to_string (of_Z (2 ^ 1024 - 2 ^ 971)) = "1.7976931348623157e+308".
Proof. vm_compute. reflexivity. Qed.

End JsExamples.

(** * Properties of [parseInt] *)

Module JsFacts.
Import JsNumber.

Lemma digits_nonneg (R : Z) (l : list ascii) (acc : option Z) (m : Z) :
  0 <= R ->
  (forall a, acc = Some a -> 0 <= a) ->
  digits R l acc = Some m ->
  0 <= m.
Proof.
  intros HR. revert acc. induction l as [|c l IH]; intros acc Hacc; simpl.
  - apply Hacc.
  - destruct (digit_value c) as [d|] eqn:Hd; [|apply Hacc].
    destruct (d <? R) eqn:HdR; [|apply Hacc].
    apply IH. intros a [= <-].
    assert (0 <= d).
    { unfold digit_value in Hd. unfold JsString.code in Hd.
      repeat match type of Hd with
             | (if ?b then _ else _) = _ => destruct b eqn:?
             end; try discriminate; injection Hd as <-; lia. }
    destruct acc as [a|]; simpl; [specialize (Hacc a eq_refl)|]; nia.
Qed.

Lemma round_mag_nonneg (a : Z) : 0 <= a -> 0 <= round_mag a.
Proof.
  intros Ha. unfold round_mag. destruct (a <? 2 ^ 53); [exact Ha|].
  apply Z.shiftl_nonneg.
  assert (0 <= Z.shiftr a (Z.log2 a - 52)) by (apply Z.shiftr_nonneg; exact Ha).
  repeat match goal with |- context [if ?b then _ else _] => destruct b end; lia.
Qed.

Lemma of_Z_nonneg (z : Z) : 0 <= z -> non_negative (of_Z z).
Proof.
  intros Hz. unfold of_Z. rewrite Z.abs_eq by exact Hz.
  pose proof (round_mag_nonneg z Hz) as Hm.
  destruct (2 ^ 1024 <=? round_mag z); simpl.
  - apply Z.ltb_ge. exact Hz.
  - destruct (Z.sgn_spec z) as [[? ->]|[[? ->]|[? ->]]]; lia.
Qed.

(** A text with no leading minus sign parses to NaN or to a number that
    is not negative. *)
Lemma parseInt_unsigned (s : string) :
  JsString.unsigned s -> parseInt s = NaN \/ non_negative (parseInt s).
Proof.
  unfold JsString.unsigned, parseInt, parseInt_bytes.
  destruct (JsString.trimStart_bytes (JsString.bytes s)) as [|c rest]; simpl; intros Hs.
  { left. reflexivity. }
  destruct (decide (c = "-"%char)) as [->|_]; [done|].
  set (sgn := if decide (c = "+"%char) then (false, rest) else (false, c :: rest)).
  assert (Hsgn : sgn.1 = false) by (unfold sgn; destruct (decide _); reflexivity).
  destruct sgn as [negative unsigned]. simpl in Hsgn. subst negative.
  match goal with |- context [let '(R, numeral) := ?p in _] => set (pr := p) end.
  assert (HR : 0 <= pr.1).
  { unfold pr. destruct unsigned as [|c0 [|c1 l]]; simpl; try lia.
    destruct (_ && _); simpl; lia. }
  destruct pr as [R numeral]. simpl in HR.
  destruct (digits R numeral None) as [m|] eqn:Hm; [|left; reflexivity].
  right. apply of_Z_nonneg. eapply digits_nonneg; [exact HR| |exact Hm]. discriminate.
Qed.

Lemma or_else_truthy (n d : number) : truthy d = true -> truthy (or_else n d) = true.
Proof. unfold or_else. destruct (truthy n) eqn:Hn; auto. Qed.

Lemma or_else_not_NaN (n d : number) : d <> NaN -> or_else n d <> NaN.
Proof. unfold or_else. destruct n as [|b|z]; simpl; try done. destruct (z =? 0); done. Qed.

Lemma or_else_non_negative (n d : number) :
  non_negative d -> n = NaN \/ non_negative n -> non_negative (or_else n d).
Proof.
  intros Hd [->|Hn]; [exact Hd|]. unfold or_else. destruct (truthy n); assumption.
Qed.

Lemma truthy_non_negative_positive (n : number) :
  truthy n = true -> non_negative n -> positive n.
Proof.
  destruct n as [|b|z]; simpl; try done.
  intros Hz%negb_true_iff%Z.eqb_neq. lia.
Qed.

End JsFacts.

(** * Properties of the handler *)

Module Props.
Import JsNumber Js Effect Anime.
Local Open Scope js_scope.

Section Properties.

Variable upstream : string -> fetch_result.
Variable now : string.
Context `{Cheerio}.

Abbreviation handler := (Anime.handler upstream now).
Abbreviation fetchFromHiAnime := (Anime.fetchFromHiAnime upstream).
Abbreviation settle := (Anime.settle upstream).
Abbreviation answer := (Anime.answer upstream).
Abbreviation getHomePage := (Anime.getHomePage upstream now).
Abbreviation searchAnime := (Anime.searchAnime upstream).
Abbreviation getAnimeDetails := (Anime.getAnimeDetails upstream).

(** One call of [fetchFromHiAnime] followed by [k]: exactly one request is
    sent; a failure is logged once and thrown, the markup is handed to [k]. *)
Lemma fetch_bind {A} (path : string) (k : string -> M A) (tr : list event) :
  (let* html := fetchFromHiAnime path in k html) tr =
  match settle (BASE_URL +:+ path) with
  | inl e => (Throw e, (tr ++ [Fetch (BASE_URL +:+ path) request_headers;
                               ConsoleError "Fetch error:" e])%list)
  | inr html => k html (tr ++ [Fetch (BASE_URL +:+ path) request_headers])%list
  end.
Proof.
  unfold Anime.fetchFromHiAnime, Anime.settle, Anime.fetch, bind, try_catch, emit,
    console_error, throw, ret, await.
  destruct (upstream (BASE_URL +:+ path)) as [e|r]; simpl.
  - rewrite <- app_assoc. reflexivity.
  - destruct (ok r); simpl.
    + destruct (body_text r) as [e|html]; simpl; [rewrite <- app_assoc|]; reflexivity.
    + rewrite <- app_assoc. reflexivity.
Qed.

Lemma settle_fails (url : string) (e : Error) :
  settle url = inl e <-> fails upstream url e.
Proof.
  unfold Anime.settle. split.
  - destruct (upstream url) as [e'|r] eqn:Hu.
    + intros [= <-]. apply fails_rejected. exact Hu.
    + destruct (ok r) eqn:Hok.
      * intros Hb. eapply fails_body; eassumption.
      * intros [= <-]. apply fails_status; assumption.
  - intros [e' Hu|r Hu Hok|r e' Hu Hok Hb]; rewrite Hu; [reflexivity|rewrite Hok..].
    + reflexivity.
    + exact Hb.
Qed.

Lemma settle_serves (url html : string) :
  settle url = inr html <-> serves upstream url html.
Proof.
  unfold Anime.settle, serves. split.
  - destruct (upstream url) as [e|r]; [discriminate|].
    destruct (ok r) eqn:Hok; [|discriminate]. eauto.
  - intros (r & -> & -> & Hb). exact Hb.
Qed.

Lemma handler_options (req : Request) (res : ServerResponse) (tr : list event) :
  req_method req = "OPTIONS" ->
  handler req res tr = (Return (Res.end_ (Res.status 200 (cors res))), tr).
Proof.
  intros Hm. unfold Anime.handler. rewrite Hm. reflexivity.
Qed.

(** Enter the [try] block of a request that is not a pre-flight. *)
Ltac dispatch Hm :=
  unfold Anime.handler;
  rewrite (bool_decide_eq_false_2 _ Hm);
  unfold strict_eq.

(** Run an extractor inside the [try] block. *)
Ltac extract :=
  unfold try_catch, bind at 1;
  rewrite fetch_bind; unfold Anime.answer;
  match goal with |- context [Anime.settle _ ?url] => destruct (Anime.settle upstream url) end;
  unfold ret, bind, console_error, emit; simpl; rewrite <- ?app_assoc; reflexivity.

Lemma handler_home (req : Request) (res : ServerResponse) (tr : list event) :
  req_method req <> "OPTIONS" ->
  req_query req !! "action" = Some (QStr "home") ->
  handler req res tr =
  answer res (BASE_URL +:+ "/home") (fun html => home_result now (load html)) tr.
Proof.
  intros Hm Ha. dispatch Hm. rewrite Ha. simpl. unfold getHomePage. extract.
Qed.

Lemma handler_search (req : Request) (res : ServerResponse) (tr : list event) :
  req_method req <> "OPTIONS" ->
  req_query req !! "action" = Some (QStr "search") ->
  truthy (req_query req !! "query") = true ->
  handler req res tr =
  answer res (BASE_URL +:+ search_path (req_query req !! "query") (page_of req))
    (fun html => search_result (load html) (req_query req !! "query") (page_of req)) tr.
Proof.
  intros Hm Ha Hq. dispatch Hm. rewrite Ha, Hq. simpl.
  unfold searchAnime, Anime.page_of. simpl default. extract.
Qed.

Lemma handler_details (req : Request) (res : ServerResponse) (tr : list event) :
  req_method req <> "OPTIONS" ->
  req_query req !! "action" = Some (QStr "details") ->
  truthy (req_query req !! "id") = true ->
  handler req res tr =
  answer res (BASE_URL +:+ details_path (req_query req !! "id"))
    (fun html => details_result (load html) (req_query req !! "id")) tr.
Proof.
  intros Hm Ha Hq. dispatch Hm. rewrite Ha, Hq. simpl. unfold getAnimeDetails. extract.
Qed.

Lemma handler_search_invalid (req : Request) (res : ServerResponse) (tr : list event) :
  req_method req <> "OPTIONS" ->
  req_query req !! "action" = Some (QStr "search") ->
  truthy (req_query req !! "query") = false ->
  handler req res tr =
  (Return (Res.json (failure "Query parameter required") (Res.status 400 (cors res))), tr).
Proof.
  intros Hm Ha Hq. dispatch Hm. rewrite Ha, Hq. reflexivity.
Qed.

Lemma handler_details_invalid (req : Request) (res : ServerResponse) (tr : list event) :
  req_method req <> "OPTIONS" ->
  req_query req !! "action" = Some (QStr "details") ->
  truthy (req_query req !! "id") = false ->
  handler req res tr =
  (Return (Res.json (failure "ID parameter required") (Res.status 400 (cors res))), tr).
Proof.
  intros Hm Ha Hq. dispatch Hm. rewrite Ha, Hq. reflexivity.
Qed.

Lemma handler_default (req : Request) (res : ServerResponse) (tr : list event) :
  req_method req <> "OPTIONS" ->
  req_query req !! "action" <> Some (QStr "home") ->
  req_query req !! "action" <> Some (QStr "search") ->
  req_query req !! "action" <> Some (QStr "details") ->
  handler req res tr = (Return (Res.json endpoints (Res.status 200 (cors res))), tr).
Proof.
  intros Hm Hh Hs Hd. dispatch Hm.
  destruct (req_query req !! "action") as [[a|l]|]; try reflexivity.
  rewrite !bool_decide_eq_false_2 by congruence. reflexivity.
Qed.

(** C1. A search request (one that is not a pre-flight) whose [query]
    parameter is missing is answered 400 with the envelope
    [{success: false, error: "Query parameter required"}], and a details
    request whose [id] parameter is missing is answered 400 with
    [{success: false, error: "ID parameter required"}]; in both cases the
    trace is left as it was: nothing is fetched. *)
Theorem missing_parameter_is_400 (req : Request) (res : ServerResponse) (tr : list event) :
  req_method req <> "OPTIONS" ->
  (req_query req !! "action" = Some (QStr "search") ->
   req_query req !! "query" = None ->
   exists res', handler req res tr = (Return res', tr)
     /\ statusCode res' = 400
     /\ sent res' = Some (JsonBody (VObj [ ("success", VBool false);
                                          ("error", VStr "Query parameter required") ])))
  /\ (req_query req !! "action" = Some (QStr "details") ->
      req_query req !! "id" = None ->
      exists res', handler req res tr = (Return res', tr)
        /\ statusCode res' = 400
        /\ sent res' = Some (JsonBody (VObj [ ("success", VBool false);
                                             ("error", VStr "ID parameter required") ]))).
Proof.
  intros Hm. split; intros Ha Hp; eexists; (split; [|split]).
  - apply handler_search_invalid; [done..|]. rewrite Hp. reflexivity.
  - reflexivity.
  - reflexivity.
  - apply handler_details_invalid; [done..|]. rewrite Hp. reflexivity.
  - reflexivity.
  - reflexivity.
Qed.

(** C9. A search request whose [query] is the empty string, and a details
    request whose [id] is the empty string, are answered exactly as the
    same request with the parameter removed: 400 with the envelope of the
    missing parameter, and the trace is left as it was. *)
Theorem empty_parameter_as_absent (req : Request) (res : ServerResponse) (tr : list event) :
  (req_query req !! "action" = Some (QStr "search") ->
   req_query req !! "query" = Some (QStr "") ->
   handler req res tr = handler (without "query" req) res tr
   /\ (req_method req <> "OPTIONS" ->
       exists res', handler req res tr = (Return res', tr)
         /\ statusCode res' = 400
         /\ sent res' = Some (error_envelope "Query parameter required")))
  /\ (req_query req !! "action" = Some (QStr "details") ->
      req_query req !! "id" = Some (QStr "") ->
      handler req res tr = handler (without "id" req) res tr
      /\ (req_method req <> "OPTIONS" ->
          exists res', handler req res tr = (Return res', tr)
            /\ statusCode res' = 400
            /\ sent res' = Some (error_envelope "ID parameter required"))).
Proof.
  split; intros Ha Hp.
  - assert (Hnow : req_method req <> "OPTIONS" ->
              handler req res tr =
              (Return (Res.json (failure "Query parameter required")
                         (Res.status 400 (cors res))), tr)).
    { intros Hm. apply handler_search_invalid; [done..|]. rewrite Hp. reflexivity. }
    split.
    + destruct (decide (req_method req = "OPTIONS")) as [Hm|Hm].
      * rewrite !handler_options by done. reflexivity.
      * rewrite Hnow by done. symmetry. apply handler_search_invalid; simpl; [done| |].
        -- rewrite lookup_delete_ne by done. exact Ha.
        -- rewrite lookup_delete_eq. reflexivity.
    + intros Hm. eexists. split; [apply Hnow; done|]. split; reflexivity.
  - assert (Hnow : req_method req <> "OPTIONS" ->
              handler req res tr =
              (Return (Res.json (failure "ID parameter required")
                         (Res.status 400 (cors res))), tr)).
    { intros Hm. apply handler_details_invalid; [done..|]. rewrite Hp. reflexivity. }
    split.
    + destruct (decide (req_method req = "OPTIONS")) as [Hm|Hm].
      * rewrite !handler_options by done. reflexivity.
      * rewrite Hnow by done. symmetry. apply handler_details_invalid; simpl; [done| |].
        -- rewrite lookup_delete_ne by done. exact Ha.
        -- rewrite lookup_delete_eq. reflexivity.
    + intros Hm. eexists. split; [apply Hnow; done|]. split; reflexivity.
Qed.


Lemma strict_eq_true (p : param) (s : string) :
  strict_eq p s = true <-> p = Some (QStr s).
Proof.
  unfold strict_eq. destruct p as [[s'|l]|]; try (split; discriminate).
  rewrite bool_decide_eq_true. split; congruence.
Qed.

Lemma strict_eq_false (p : param) (s : string) :
  strict_eq p s = false <-> p <> Some (QStr s).
Proof.
  rewrite <- strict_eq_true. destruct (strict_eq p s); split; congruence.
Qed.

(** A dispatched request is answered from the URL it asks for. *)
Lemma handler_requested
    (req : Request) (res : ServerResponse) (tr : list event) (url : string) :
  req_method req <> "OPTIONS" ->
  requested req = Some url ->
  exists result, handler req res tr = answer res url result tr.
Proof.
  intros Hm. unfold requested.
  destruct (strict_eq (req_query req !! "action") "home") eqn:Hh.
  { apply strict_eq_true in Hh. intros [= <-]. eauto using handler_home. }
  destruct (strict_eq (req_query req !! "action") "search") eqn:Hs.
  { apply strict_eq_true in Hs. destruct (truthy (req_query req !! "query")) eqn:Hq; [|done].
    intros [= <-]. eauto using handler_search. }
  destruct (strict_eq (req_query req !! "action") "details") eqn:Hd; [|done].
  apply strict_eq_true in Hd. destruct (truthy (req_query req !! "id")) eqn:Hq; [|done].
  intros [= <-]. eauto using handler_details.
Qed.

(** Every request falls in one of the cases of [handler]. *)
Lemma handler_cases (req : Request) (res : ServerResponse) (tr : list event) :
  handler req res tr = (Return (Res.end_ (Res.status 200 (cors res))), tr)
  \/ (exists msg,
        handler req res tr = (Return (Res.json (failure msg) (Res.status 400 (cors res))), tr))
  \/ handler req res tr = (Return (Res.json endpoints (Res.status 200 (cors res))), tr)
  \/ (exists url result, handler req res tr = answer res url result tr).
Proof.
  destruct (decide (req_method req = "OPTIONS")) as [Hm|Hm].
  { left. apply handler_options; done. }
  right.
  destruct (requested req) as [url|] eqn:Hu.
  { right; right. exists url. apply handler_requested; done. }
  revert Hu. unfold requested.
  destruct (strict_eq (req_query req !! "action") "home") eqn:Hh; [done|].
  destruct (strict_eq (req_query req !! "action") "search") eqn:Hs.
  { apply strict_eq_true in Hs. destruct (truthy (req_query req !! "query")) eqn:Hq; [done|].
    left. eauto using handler_search_invalid. }
  destruct (strict_eq (req_query req !! "action") "details") eqn:Hd.
  { apply strict_eq_true in Hd. destruct (truthy (req_query req !! "id")) eqn:Hq; [done|].
    left. eauto using handler_details_invalid. }
  right; left. apply strict_eq_false in Hh, Hs, Hd. apply handler_default; done.
Qed.

(** C10. Whatever the method, the action and the outcome (a pre-flight, a
    400, a 500 after a failed fetch, a 200), [handler] returns, and the
    response it returns carries the three headers
    [Access-Control-Allow-Origin: *],
    [Access-Control-Allow-Methods: GET, OPTIONS] and
    [Access-Control-Allow-Headers: Content-Type]. *)
Theorem cors_headers_on_every_response
    (req : Request) (res : ServerResponse) (tr : list event) :
  exists res' tr',
    handler req res tr = (Return res', tr')
    /\ headers res' !! "Access-Control-Allow-Origin" = Some "*"
    /\ headers res' !! "Access-Control-Allow-Methods" = Some "GET, OPTIONS"
    /\ headers res' !! "Access-Control-Allow-Headers" = Some "Content-Type".
Proof.
  destruct (handler_cases req res tr) as [E|[[msg E]|[E|(url & result & E)]]];
    rewrite E; [| | |unfold Anime.answer; destruct (settle url)];
    do 2 eexists; (split; [reflexivity|]); simpl; by simplify_map_eq.
Qed.

(** C7. For a request that [handler] dispatches to an extractor (it is not
    a pre-flight and asks the upstream for [url]): if the request to the
    upstream fails with error [e] (the [fetch] is rejected, the status is
    outside 200..299, or the body cannot be read), the answer is 500 with
    the envelope [{success: false, error: msg}] where [msg] is not empty
    and is the message of [e] unless that is empty; for a status outside
    200..299 the message is [HTTP <status>: <statusText>]. The upstream was
    asked once: the trace gains one [Fetch] and two log entries. *)
Theorem upstream_failure_is_500
    (req : Request) (res : ServerResponse) (tr : list event) (url : string) (e : Error) :
  req_method req <> "OPTIONS" ->
  requested req = Some url ->
  fails upstream url e ->
  exists res' msg,
    handler req res tr =
      (Return res', (tr ++ [ Fetch url request_headers; ConsoleError "Fetch error:" e;
                             ConsoleError "API Error:" e ])%list)
    /\ fetched [ Fetch url request_headers; ConsoleError "Fetch error:" e;
                 ConsoleError "API Error:" e ] = [url]
    /\ statusCode res' = 500
    /\ sent res' = Some (error_envelope msg)
    /\ msg <> ""
    /\ (message e <> "" -> msg = message e)
    /\ (forall r, upstream url = Resolved r -> ok r = false ->
          msg = "HTTP " +:+ JsNumber.to_string (Finite (status r)) +:+ ": " +:+ statusText r).
Proof.
  intros Hm Hu He%settle_fails.
  destruct (handler_requested req res tr url Hm Hu) as [result E].
  unfold Anime.answer in E. rewrite He in E.
  exists (Res.json (failure (or_str (Some (message e)) "Internal server error"))
            (Res.status 500 (cors res))),
         (or_str (Some (message e)) "Internal server error").
  split; [exact E|]. split; [reflexivity|]. split; [reflexivity|]. split; [reflexivity|].
  assert (Hmsg : message e <> "" ->
                 or_str (Some (message e)) "Internal server error" = message e).
  { intros Hne. unfold or_str, JsString.truthy. rewrite bool_decide_eq_false_2 by done.
    reflexivity. }
  split; [|split].
  - unfold or_str, JsString.truthy. destruct (decide (message e = "")) as [Hz|Hz].
    + rewrite bool_decide_eq_true_2 by done. discriminate.
    + rewrite bool_decide_eq_false_2 by done. exact Hz.
  - exact Hmsg.
  - intros r Hr Hok. unfold Anime.settle in He. rewrite Hr, Hok in He.
    injection He as <-. apply Hmsg. discriminate.
Qed.

Lemma answer_ok (res : ServerResponse) (url html : string) (result : string -> value)
    (tr : list event) :
  settle url = inr html ->
  answer res url result tr =
  (Return (Res.json (result html) (Res.status 200 (cors res))),
   (tr ++ [ Fetch url request_headers ])%list).
Proof. intros Hs. unfold Anime.answer. rewrite Hs. reflexivity. Qed.

(** C3. For a details request whose [id] is not empty, whatever markup
    the upstream serves for it, the answer is 200 and the [id] of its
    [data] is the [id] parameter of the request as it came; the extractor
    called with that parameter returns the same object. *)
Theorem details_id_is_the_parameter
    (req : Request) (res : ServerResponse) (tr : list event) (id : qval) (html : string) :
  req_method req <> "OPTIONS" ->
  req_query req !! "action" = Some (QStr "details") ->
  req_query req !! "id" = Some id ->
  truthy (Some id) = true ->
  serves upstream (BASE_URL +:+ details_path (Some id)) html ->
  exists res' v tr',
    handler req res tr = (Return res', tr')
    /\ getAnimeDetails (Some id) tr = (Return v, tr')
    /\ statusCode res' = 200
    /\ sent res' = Some (JsonBody v)
    /\ dig ["data"; "id"] v = Some (to_value (Some id)).
Proof.
  intros Hm Ha Hid Ht Hs%settle_serves.
  exists (Res.json (details_result (load html) (Some id)) (Res.status 200 (cors res))),
         (details_result (load html) (Some id)),
         (tr ++ [ Fetch (BASE_URL +:+ details_path (Some id)) request_headers ])%list.
  split; [|split; [|repeat split]].
  - rewrite handler_details by (rewrite ?Hid; done). rewrite Hid.
    rewrite (answer_ok res _ html _ tr Hs). reflexivity.
  - unfold Anime.getAnimeDetails. rewrite fetch_bind, Hs. reflexivity.
Qed.

(** C5, amended. For a search request that is served, [currentPage] is
    [parseInt(page) || 1]: the [page] parameter as [parseInt] reads it
    when that is a number other than zero, and 1 when [page] is absent,
    has no leading numeral or reads as zero. It is never NaN nor zero, and
    it is greater than zero whenever [page] has no leading minus sign. *)
Theorem current_page_is_parseInt_or_1
    (req : Request) (res : ServerResponse) (tr : list event) (html : string) :
  req_method req <> "OPTIONS" ->
  req_query req !! "action" = Some (QStr "search") ->
  truthy (req_query req !! "query") = true ->
  serves upstream (BASE_URL +:+ search_path (req_query req !! "query") (page_of req)) html ->
  let page := req_query req !! "page" in
  exists res' v tr',
    handler req res tr = (Return res', tr')
    /\ statusCode res' = 200
    /\ sent res' = Some (JsonBody v)
    /\ dig ["data"; "currentPage"] v = Some (VNum (page_of req))
    /\ (JsNumber.truthy (parseInt (to_string page)) = true ->
        page_of req = parseInt (to_string page))
    /\ (page = None \/ parseInt (to_string page) = NaN
        \/ parseInt (to_string page) = Finite 0 -> page_of req = Finite 1)
    /\ page_of req <> NaN
    /\ page_of req <> Finite 0
    /\ (JsString.unsigned (to_string page) -> positive (page_of req)).
Proof.
  intros Hm Ha Hq Hs%settle_serves page.
  do 3 eexists. split; [|split; [|split; [|split]]].
  - rewrite handler_search by done. rewrite (answer_ok res _ html _ tr Hs). reflexivity.
  - reflexivity.
  - reflexivity.
  - reflexivity.
  - assert (Ht : JsNumber.truthy (page_of req) = true)
      by (apply JsFacts.or_else_truthy; reflexivity).
    unfold page_of in *. fold page in Ht |- *. repeat split.
    + intros Hp. unfold or_else. rewrite Hp. reflexivity.
    + intros [->|[->| ->]]; reflexivity.
    + intros E. rewrite E in Ht. discriminate.
    + intros E. rewrite E in Ht. discriminate.
    + intros Hu. apply JsFacts.truthy_non_negative_positive; [exact Ht|].
      apply JsFacts.or_else_non_negative; [simpl; lia|].
      apply JsFacts.parseInt_unsigned. exact Hu.
Qed.

Lemma one_per_node_imap (nodes : list node) (entry : nat -> node -> value) :
  one_per_node nodes entry (imap entry nodes).
Proof.
  split; [apply length_imap|].
  intros i el Hel. rewrite list_lookup_imap, Hel. reflexivity.
Qed.

(** C6. Whatever markup is served: the [spotlight] and [trending] arrays
    of the home page and the [results] array of a search have one entry
    per node their selector matched, in the order of the matched nodes
    (entry [i] is built from node [i]), and the spotlight entry at
    position [i] has rank [i + 1]. *)
Theorem entries_follow_matched_nodes (html : string) (tr : list event) :
  (serves upstream (BASE_URL +:+ "/home") html ->
   exists v spotlight trending tr',
     getHomePage tr = (Return v, tr')
     /\ dig ["data"; "spotlight"] v = Some (VArr spotlight)
     /\ dig ["data"; "trending"] v = Some (VArr trending)
     /\ one_per_node (toArray (select (load html) ".deslide-item"))
          (spotlight_item (load html)) spotlight
     /\ (forall i e, spotlight !! i = Some e ->
           get "rank" e = Some (VNum (Finite (Z.of_nat i + 1))))
     /\ one_per_node
          (toArray (select (load html) "#trending-home .film_list-wrap .flw-item"))
          (trending_item (load html)) trending)
  /\ (forall query page,
        serves upstream (BASE_URL +:+ search_path query page) html ->
        exists v results tr',
          searchAnime query (Some page) tr = (Return v, tr')
          /\ dig ["data"; "results"] v = Some (VArr results)
          /\ one_per_node (toArray (select (load html) ".flw-item"))
               (result_item (load html)) results).
Proof.
  split.
  - intros Hs%settle_serves. do 4 eexists. split; [|split; [|split; [|split; [|split]]]].
    + unfold Anime.getHomePage. rewrite fetch_bind, Hs. reflexivity.
    + reflexivity.
    + reflexivity.
    + apply one_per_node_imap.
    + intros i e. rewrite list_lookup_imap.
      destruct (toArray _ !! i) as [el|]; [|discriminate]. intros [= <-]. reflexivity.
    + apply one_per_node_imap.
  - intros query page Hs%settle_serves. do 3 eexists. split; [|split].
    + unfold Anime.searchAnime. simpl default. rewrite fetch_bind, Hs. reflexivity.
    + reflexivity.
    + apply one_per_node_imap.
Qed.

Lemma trim_text_absent (s : selection) : absent s -> JsString.trim (text s) = "".
Proof. intros Hs. rewrite (text_empty s Hs). reflexivity. Qed.

Lemma attr_absent (s : selection) (name : string) :
  absent s -> or_str (attr s name) "" = "".
Proof. intros Hs. rewrite (attr_empty s name Hs). reflexivity. Qed.

Lemma last_segment_absent (s : selection) (name : string) :
  absent s -> last_segment (attr s name) = "".
Proof. intros Hs. rewrite (attr_empty s name Hs). reflexivity. Qed.

Lemma count_absent (s : selection) : absent s -> count s = Finite 0.
Proof. intros Hs. unfold count. rewrite (text_empty s Hs). reflexivity. Qed.

(** C2. Whatever the markup, an extractor throws only what
    [fetchFromHiAnime] threw and returns whenever [fetchFromHiAnime]
    returned, adding nothing to the trace; and in what it returns a string
    field whose node is absent is the empty string, a count whose node is
    absent is 0, and the genres of a page with no genre link are the empty
    array. *)
Theorem extraction_degrades_to_defaults :
  (forall tr,
     getHomePage tr =
     match fetchFromHiAnime "/home" tr with
     | (Return html, tr') => (Return (home_result now (load html)), tr')
     | (Throw e, tr') => (Throw e, tr')
     end)
  /\ (forall query page tr,
        searchAnime query page tr =
        match fetchFromHiAnime (search_path query (default (Finite 1) page)) tr with
        | (Return html, tr') =>
            (Return (search_result (load html) query (default (Finite 1) page)), tr')
        | (Throw e, tr') => (Throw e, tr')
        end)
  /\ (forall animeId tr,
        getAnimeDetails animeId tr =
        match fetchFromHiAnime (details_path animeId) tr with
        | (Return html, tr') => (Return (details_result (load html) animeId), tr')
        | (Throw e, tr') => (Throw e, tr')
        end)
  /\ (forall dollar i el,
        let item := spotlight_item dollar i el in
        let sub := find (wrap dollar el) in
        (absent (sub "a") -> get "id" item = Some (VStr ""))
        /\ (absent (sub ".deslide-item-content h2") -> get "title" item = Some (VStr ""))
        /\ (absent (sub ".deslide-item-content .sc-desc") ->
            get "description" item = Some (VStr ""))
        /\ (absent (sub ".deslide-cover img") -> get "poster" item = Some (VStr "")))
  /\ (forall dollar i el,
        let item := trending_item dollar i el in
        let sub := find (wrap dollar el) in
        (absent (sub "a.film-poster") -> get "id" item = Some (VStr ""))
        /\ (absent (sub ".film-name") -> get "title" item = Some (VStr ""))
        /\ (absent (sub ".film-poster-img") -> get "poster" item = Some (VStr ""))
        /\ (absent (sub ".fdi-item:first") -> get "type" item = Some (VStr ""))
        /\ (absent (sub ".fdi-duration") -> get "duration" item = Some (VStr "")))
  /\ (forall dollar i el,
        let item := result_item dollar i el in
        let sub := find (wrap dollar el) in
        (absent (sub "a.film-poster") -> get "id" item = Some (VStr ""))
        /\ (absent (sub ".film-name") -> get "title" item = Some (VStr ""))
        /\ (absent (sub ".film-poster-img") -> get "poster" item = Some (VStr ""))
        /\ (absent (sub ".fdi-item:first") -> get "type" item = Some (VStr ""))
        /\ (absent (sub ".fdi-duration") -> get "duration" item = Some (VStr ""))
        /\ (absent (sub ".tick-sub") ->
            dig ["episodes"; "sub"] item = Some (VNum (Finite 0)))
        /\ (absent (sub ".tick-dub") ->
            dig ["episodes"; "dub"] item = Some (VNum (Finite 0))))
  /\ (forall dollar animeId,
        let page := details_result dollar animeId in
        (absent (select dollar ".film-name") ->
         dig ["data"; "title"] page = Some (VStr ""))
        /\ (absent (select dollar ".film-poster-img") ->
            dig ["data"; "poster"] page = Some (VStr ""))
        /\ (absent (select dollar ".film-description") ->
            dig ["data"; "description"] page = Some (VStr ""))
        /\ (absent (select dollar (item_title_contains "Type:")) ->
            dig ["data"; "type"] page = Some (VStr ""))
        /\ (absent (select dollar (item_title_contains "Status:")) ->
            dig ["data"; "status"] page = Some (VStr ""))
        /\ (absent (select dollar ".item-list a") ->
            dig ["data"; "genres"] page = Some (VArr []))
        /\ (absent (select dollar ".tick-sub") ->
            dig ["data"; "episodes"; "sub"] page = Some (VNum (Finite 0)))
        /\ (absent (select dollar ".tick-dub") ->
            dig ["data"; "episodes"; "dub"] page = Some (VNum (Finite 0)))).
Proof.
  split; [|split; [|split]].
  - intros tr. unfold Anime.getHomePage, bind.
    destruct (fetchFromHiAnime "/home" tr) as [[html|e] tr']; reflexivity.
  - intros query page tr. unfold Anime.searchAnime, bind.
    destruct (fetchFromHiAnime _ tr) as [[html|e] tr']; reflexivity.
  - intros animeId tr. unfold Anime.getAnimeDetails, bind.
    destruct (fetchFromHiAnime _ tr) as [[html|e] tr']; reflexivity.
  - repeat split; intros Hs; simpl;
      rewrite ?(trim_text_absent _ Hs), ?(attr_absent _ _ Hs), ?(last_segment_absent _ _ Hs),
        ?(count_absent _ Hs); try reflexivity.
    + rewrite (trim_text_absent _ (next_empty _ Hs)). reflexivity.
    + rewrite (trim_text_absent _ (next_empty _ Hs)). reflexivity.
    + unfold absent in Hs. rewrite Hs. reflexivity.
Qed.

(** C4, amended. Every search result entry and the details result expose
    the two counts under the field [episodes] (there is no field
    [episodeCounts]), as the numbers [sub] and [dub]; each count is
    [parseInt(text) || 0] for the text of its badge: never NaN, 0 when the
    badge is missing or when [parseInt] finds no numeral at the start of
    the text, and not negative when the text has no leading minus sign. *)
Theorem episode_counts_under_episodes :
  (forall dollar i el,
     let item := result_item dollar i el in
     get "episodes" item =
       Some (VObj [ ("sub", VNum (count (find (wrap dollar el) ".tick-sub")));
                    ("dub", VNum (count (find (wrap dollar el) ".tick-dub"))) ])
     /\ get "episodeCounts" item = None)
  /\ (forall dollar animeId,
        let page := details_result dollar animeId in
        dig ["data"; "episodes"] page =
          Some (VObj [ ("sub", VNum (count (select dollar ".tick-sub")));
                       ("dub", VNum (count (select dollar ".tick-dub"))) ])
        /\ dig ["data"; "episodeCounts"] page = None)
  /\ (forall badge : selection,
        count badge = or_else (parseInt (text badge)) (Finite 0)
        /\ count badge <> NaN
        /\ (absent badge -> count badge = Finite 0)
        /\ (parseInt (text badge) = NaN -> count badge = Finite 0)
        /\ (JsString.unsigned (text badge) -> non_negative (count badge))).
Proof.
  split; [|split].
  - intros dollar i el. split; reflexivity.
  - intros dollar animeId. split; reflexivity.
  - intros badge. split; [reflexivity|]. split; [|split; [|split]].
    + apply JsFacts.or_else_not_NaN. discriminate.
    + apply count_absent.
    + intros E. unfold count. rewrite E. reflexivity.
    + intros Hu. apply JsFacts.or_else_non_negative; [simpl; lia|].
      apply JsFacts.parseInt_unsigned. exact Hu.
Qed.

End Properties.
End Props.

(** * The properties on the sample pages *)

Module Checks.
Import JsNumber Js Effect Anime Sample.

Abbreviation sample_handler :=
  (Anime.handler Sample.upstream Sample.now (H := Fixture.cheerio Sample.pages)).

Lemma sample_serves (url : string) (f : list Fixture.tree) :
  Sample.upstream url = served f ->
  serves Sample.upstream url (Fixture.render_page f).
Proof. intros Hu. eexists. split; [exact Hu|]. split; reflexivity. Qed.

(** C1 on two sample requests: a search with no [query] and a details
    request with no [id]. *)
Lemma missing_parameter_is_400_witness :
  (exists res',
     sample_handler (get_request [("action", QStr "search"); ("page", QStr "2")]) res0 []
       = (Return res', [])
     /\ statusCode res' = 400
     /\ sent res' = Some (JsonBody (VObj [ ("success", VBool false);
                                          ("error", VStr "Query parameter required") ])))
  /\ (exists res',
        sample_handler (get_request [("action", QStr "details")]) res0 [] = (Return res', [])
        /\ statusCode res' = 400
        /\ sent res' = Some (JsonBody (VObj [ ("success", VBool false);
                                             ("error", VStr "ID parameter required") ]))).
Proof.
  split.
  - apply (Props.missing_parameter_is_400 Sample.upstream Sample.now
             (get_request [("action", QStr "search"); ("page", QStr "2")]) res0 []);
      [discriminate | vm_compute; reflexivity | vm_compute; reflexivity].
  - apply (Props.missing_parameter_is_400 Sample.upstream Sample.now
             (get_request [("action", QStr "details")]) res0 []);
      [discriminate | vm_compute; reflexivity | vm_compute; reflexivity].
Defined.

(** C9 on two sample requests with an empty parameter. *)
Lemma empty_parameter_as_absent_witness :
  (exists res',
     sample_handler (get_request [("action", QStr "search"); ("query", QStr "")]) res0 []
       = (Return res', [])
     /\ statusCode res' = 400
     /\ sent res' = Some (error_envelope "Query parameter required"))
  /\ (exists res',
        sample_handler (get_request [("action", QStr "details"); ("id", QStr "")]) res0 []
          = (Return res', [])
        /\ statusCode res' = 400
        /\ sent res' = Some (error_envelope "ID parameter required")).
Proof.
  split.
  - apply (Props.empty_parameter_as_absent Sample.upstream Sample.now
             (get_request [("action", QStr "search"); ("query", QStr "")]) res0 []);
      [vm_compute; reflexivity | vm_compute; reflexivity | discriminate].
  - apply (Props.empty_parameter_as_absent Sample.upstream Sample.now
             (get_request [("action", QStr "details"); ("id", QStr "")]) res0 []);
      [vm_compute; reflexivity | vm_compute; reflexivity | discriminate].
Defined.


(** C7 on the sample upstream: a details request for a title the upstream
    answers 404 for. *)
Lemma upstream_failure_is_500_witness :
  exists res',
    (sample_handler (get_request [("action", QStr "details"); ("id", QStr "gone")]) res0 []).1
      = Return res'
    /\ statusCode res' = 500
    /\ sent res' = Some (error_envelope "HTTP 404: Not Found").
Proof.
  destruct (Props.upstream_failure_is_500 Sample.upstream Sample.now
              (H := Fixture.cheerio Sample.pages)
              (get_request [("action", QStr "details"); ("id", QStr "gone")]) res0 []
              "https://hianime.to/gone" (mkError "HTTP 404: Not Found"))
    as (res' & msg & E & _ & Hc & Hb & _ & Hmsg & _);
    [discriminate | vm_compute; reflexivity
    | apply (fails_status _ _ (mkResponse 404 "Not Found" (inr "Not Found")));
      vm_compute; reflexivity |].
  exists res'. rewrite E. split; [reflexivity|]. split; [exact Hc|].
  rewrite Hb, Hmsg; [reflexivity | discriminate].
Defined.

(** C3 on the sample title page, whose own links name another title. *)
Lemma details_id_is_the_parameter_witness :
  exists res' v tr',
    sample_handler (get_request [("action", QStr "details"); ("id", QStr "naruto-20")]) res0 []
      = (Return res', tr')
    /\ Anime.getAnimeDetails Sample.upstream (H := Fixture.cheerio Sample.pages)
         (Some (QStr "naruto-20")) [] = (Return v, tr')
    /\ statusCode res' = 200
    /\ sent res' = Some (JsonBody v)
    /\ dig ["data"; "id"] v = Some (VStr "naruto-20").
Proof.
  apply (Props.details_id_is_the_parameter Sample.upstream Sample.now
           (get_request [("action", QStr "details"); ("id", QStr "naruto-20")]) res0 []
           (QStr "naruto-20") (Fixture.render_page Sample.details));
    [discriminate | vm_compute; reflexivity.. | apply sample_serves; vm_compute; reflexivity].
Defined.

(** C5 as stated fails: a search for page [-5] is served and reports
    [currentPage] [-5], which is not a positive integer. *)
Lemma current_page_counterexample :
  let req := get_request [ ("action", QStr "search"); ("query", QStr "one piece");
                           ("page", QStr "-5") ] in
  json_of (sample_handler req res0 []).1 ≫= dig ["data"; "currentPage"]
  = Some (VNum (Finite (-5))).
Proof. vm_compute. reflexivity. Qed.

(** C5, amended, on a sample search for page 2. *)
Lemma current_page_is_parseInt_or_1_witness :
  exists res' v tr',
    sample_handler
      (get_request [("action", QStr "search"); ("query", QStr "one piece"); ("page", QStr "2")])
      res0 [] = (Return res', tr')
    /\ statusCode res' = 200
    /\ sent res' = Some (JsonBody v)
    /\ dig ["data"; "currentPage"] v = Some (VNum (Finite 2))
    /\ positive (Finite 2).
Proof.
  destruct (Props.current_page_is_parseInt_or_1 Sample.upstream Sample.now
              (H := Fixture.cheerio Sample.pages)
              (get_request [("action", QStr "search"); ("query", QStr "one piece");
                            ("page", QStr "2")])
              res0 [] (Fixture.render_page Sample.search))
    as (res' & v & tr' & E & Hc & Hb & Hp & _ & _ & _ & _ & Hpos);
    [discriminate | vm_compute; reflexivity.. | apply sample_serves; vm_compute; reflexivity|].
  exists res', v, tr'. split; [exact E|]. split; [exact Hc|]. split; [exact Hb|].
  split; [exact Hp|]. apply Hpos. vm_compute. discriminate.
Defined.

(** C6 on the sample home page (three slides, two trending cards) and the
    sample search page (three cards). *)
Lemma entries_follow_matched_nodes_witness :
  (exists v spotlight trending tr',
     Anime.getHomePage Sample.upstream Sample.now (H := Fixture.cheerio Sample.pages) []
       = (Return v, tr')
     /\ dig ["data"; "spotlight"] v = Some (VArr spotlight)
     /\ dig ["data"; "trending"] v = Some (VArr trending)
     /\ length spotlight = 3%nat
     /\ (spotlight !! 2%nat ≫= get "rank") = Some (VNum (Finite 3))
     /\ length trending = 2%nat)
  /\ (exists v results tr',
        Anime.searchAnime Sample.upstream (H := Fixture.cheerio Sample.pages)
          (Some (QStr "one piece")) (Some (Finite 2)) [] = (Return v, tr')
        /\ dig ["data"; "results"] v = Some (VArr results)
        /\ length results = 3%nat).
Proof.
  split.
  - destruct (proj1 (Props.entries_follow_matched_nodes Sample.upstream Sample.now
                       (H := Fixture.cheerio Sample.pages)
                       (Fixture.render_page Sample.home) []))
      as (v & spotlight & trending & tr' & E & Hs & Ht & [Ls Es] & Hr & [Lt _]);
      [apply sample_serves; vm_compute; reflexivity|].
    exists v, spotlight, trending, tr'.
    split; [exact E|]. split; [exact Hs|]. split; [exact Ht|].
    split; [rewrite Ls; vm_compute; reflexivity|].
    split; [|rewrite Lt; vm_compute; reflexivity].
    destruct (spotlight !! 2%nat) as [e|] eqn:He.
    + simpl. apply (Hr 2%nat e He).
    + exfalso. apply lookup_ge_None in He. rewrite Ls in He. vm_compute in He. lia.
  - destruct (proj2 (Props.entries_follow_matched_nodes Sample.upstream Sample.now
                       (H := Fixture.cheerio Sample.pages)
                       (Fixture.render_page Sample.search) [])
                (Some (QStr "one piece")) (Finite 2))
      as (v & results & tr' & E & Hs & [Ls _]);
      [apply sample_serves; vm_compute; reflexivity|].
    exists v, results, tr'.
    split; [exact E|]. split; [exact Hs|]. rewrite Ls. vm_compute. reflexivity.
Defined.

(** C4 as stated fails: the second entry of the sample search has no
    field [episodeCounts]; its counts are under [episodes], where the
    badge text [-3] gives the negative count -3 and the badge text
    [12 eps], which is not a number, gives 12. *)
Lemma episode_counts_counterexample :
  let req := get_request [("action", QStr "search"); ("query", QStr "one piece")] in
  let entry :=
    (json_of (sample_handler req res0 []).1 ≫= dig ["data"; "results"]) ≫= index 1 in
  (entry ≫= get "episodeCounts") = None
  /\ (entry ≫= get "episodes")
     = Some (VObj [ ("sub", VNum (Finite (-3))); ("dub", VNum (Finite 12)) ]).
Proof. vm_compute. split; reflexivity. Qed.

(** C2 on the sample page where no selector matches, as a title page. *)
Lemma extraction_degrades_to_defaults_witness :
  let dollar := Fixture.load_page Sample.pages (Fixture.render_page Sample.blank) in
  let page := details_result (H := Fixture.cheerio Sample.pages) dollar (Some (QStr "blank")) in
  dig ["data"; "title"] page = Some (VStr "")
  /\ dig ["data"; "type"] page = Some (VStr "")
  /\ dig ["data"; "genres"] page = Some (VArr [])
  /\ dig ["data"; "episodes"; "sub"] page = Some (VNum (Finite 0)).
Proof.
  intros dollar page.
  destruct (Props.extraction_degrades_to_defaults Sample.upstream Sample.now
              (H := Fixture.cheerio Sample.pages))
    as (_ & _ & _ & _ & _ & _ & Hd).
  destruct (Hd dollar (Some (QStr "blank"))) as (Ht & _ & _ & Hy & _ & Hg & Hs & _).
  split; [apply Ht; vm_compute; reflexivity|].
  split; [apply Hy; vm_compute; reflexivity|].
  split; [apply Hg; vm_compute; reflexivity|].
  apply Hs; vm_compute; reflexivity.
Defined.

(** C4, amended, on the first card of the sample search page: its
    [.tick-sub] badge reads 1100. *)
Lemma episode_counts_under_episodes_witness :
  let dollar := Fixture.load_page Sample.pages (Fixture.render_page Sample.search) in
  let badge :=
    find (Cheerio := Fixture.cheerio Sample.pages)
      (wrap (Cheerio := Fixture.cheerio Sample.pages) dollar [0; 0]%nat) ".tick-sub" in
  count badge = Finite 1100 /\ non_negative (count badge).
Proof.
  intros dollar badge.
  destruct (Props.episode_counts_under_episodes (H := Fixture.cheerio Sample.pages))
    as (_ & _ & Hc).
  destruct (Hc badge) as (E & _ & _ & _ & Hn).
  split; [rewrite E; vm_compute; reflexivity|].
  apply Hn. vm_compute. discriminate.
Defined.

End Checks.

(** * Further properties of the program *)

(** Vocabulary. *)
Module More.
Import JsNumber Js Effect Anime.

(** The [console.error] calls of a trace, in order. *)
Definition logged (tr : list event) : list (string * Error) :=
  omap (fun ev => match ev with ConsoleError label e => Some (label, e) | _ => None end) tr.

(** The headers sent with the requests of a trace. *)
Definition sent_headers (tr : list event) : list (list (string * string)) :=
  omap (fun ev => match ev with Fetch _ hdrs => Some hdrs | _ => None end) tr.

(** The bytes of [s] contain no [/]. *)
Definition slashless (s : string) : Prop := "/"%char ∉ JsString.bytes s.

(** A decimal digit character. *)
Definition is_dec (c : ascii) : Prop := 48 <= JsString.code c <= 57.

(** [s] neither starts nor ends with a white space or line terminator
    character. *)
Definition trimmed (s : string) : Prop :=
  JsString.strip_one JsString.white_space (JsString.bytes s) = None
  /\ JsString.strip_one (map (@rev ascii) JsString.white_space) (rev (JsString.bytes s))
     = None.

End More.

Module MoreProps.
Import JsNumber Js Effect Anime More.
Local Open Scope js_scope.

Section Properties.

Variable upstream : string -> fetch_result.
Variable now : string.
Context `{Cheerio}.

Abbreviation handler := (Anime.handler upstream now).
Abbreviation fetchFromHiAnime := (Anime.fetchFromHiAnime upstream).
Abbreviation settle := (Anime.settle upstream).
Abbreviation answer := (Anime.answer upstream).

(** A dispatched request is answered from the URL it asks for, with an
    object of the form [{success: true, data: {...}}] when it is served. *)
Lemma handler_requested_shape
    (req : Request) (res : ServerResponse) (tr : list event) (url : string) :
  req_method req <> "OPTIONS" ->
  requested req = Some url ->
  exists result,
    handler req res tr = answer res url result tr
    /\ forall html, exists data,
         result html = VObj [ ("success", VBool true); ("data", VObj data) ].
Proof.
  intros Hm. unfold requested.
  destruct (strict_eq (req_query req !! "action") "home") eqn:Hh.
  { apply Props.strict_eq_true in Hh. intros [= <-]. eexists.
    split; [apply Props.handler_home; done|]. intros html. eexists. reflexivity. }
  destruct (strict_eq (req_query req !! "action") "search") eqn:Hs.
  { apply Props.strict_eq_true in Hs.
    destruct (truthy (req_query req !! "query")) eqn:Hq; [|done].
    intros [= <-]. eexists.
    split; [apply Props.handler_search; done|]. intros html. eexists. reflexivity. }
  destruct (strict_eq (req_query req !! "action") "details") eqn:Hd; [|done].
  apply Props.strict_eq_true in Hd. destruct (truthy (req_query req !! "id")) eqn:Hq; [|done].
  intros [= <-]. eexists.
  split; [apply Props.handler_details; done|]. intros html. eexists. reflexivity.
Qed.

(** The cases of [handler], each with the condition that selects it. *)
Lemma handler_view (req : Request) (res : ServerResponse) (tr : list event) :
  (req_method req = "OPTIONS"
   /\ handler req res tr = (Return (Res.end_ (Res.status 200 (cors res))), tr))
  \/ (req_method req <> "OPTIONS"
      /\ req_query req !! "action" = Some (QStr "search")
      /\ truthy (req_query req !! "query") = false
      /\ requested req = None
      /\ handler req res tr =
         (Return (Res.json (failure "Query parameter required")
                    (Res.status 400 (cors res))), tr))
  \/ (req_method req <> "OPTIONS"
      /\ req_query req !! "action" = Some (QStr "details")
      /\ truthy (req_query req !! "id") = false
      /\ requested req = None
      /\ handler req res tr =
         (Return (Res.json (failure "ID parameter required")
                    (Res.status 400 (cors res))), tr))
  \/ (req_method req <> "OPTIONS"
      /\ req_query req !! "action" <> Some (QStr "search")
      /\ req_query req !! "action" <> Some (QStr "details")
      /\ requested req = None
      /\ handler req res tr = (Return (Res.json endpoints (Res.status 200 (cors res))), tr))
  \/ (req_method req <> "OPTIONS"
      /\ exists url result,
           requested req = Some url
           /\ handler req res tr = answer res url result tr
           /\ forall html, exists data,
                result html = VObj [ ("success", VBool true); ("data", VObj data) ]).
Proof.
  destruct (decide (req_method req = "OPTIONS")) as [Hm|Hm].
  { left. split; [exact Hm|]. apply Props.handler_options; done. }
  right.
  destruct (requested req) as [url|] eqn:Hu.
  { do 3 right. split; [exact Hm|]. exists url.
    destruct (handler_requested_shape req res tr url Hm Hu) as (result & E & Hshape).
    eauto. }
  revert Hu. unfold requested.
  destruct (strict_eq (req_query req !! "action") "home") eqn:Hh; [done|].
  destruct (strict_eq (req_query req !! "action") "search") eqn:Hs.
  { apply Props.strict_eq_true in Hs.
    destruct (truthy (req_query req !! "query")) eqn:Hq; [done|]. intros _.
    left. repeat (split; [done|]). apply Props.handler_search_invalid; done. }
  destruct (strict_eq (req_query req !! "action") "details") eqn:Hd.
  { apply Props.strict_eq_true in Hd.
    destruct (truthy (req_query req !! "id")) eqn:Hq; [done|]. intros _.
    right; left. repeat (split; [done|]). apply Props.handler_details_invalid; done. }
  intros _. right; right; left.
  apply Props.strict_eq_false in Hh, Hs, Hd.
  repeat (split; [done|]). apply Props.handler_default; done.
Qed.

Lemma requested_origin (req : Request) (url : string) :
  requested req = Some url -> exists path, url = "https://hianime.to/" +:+ path.
Proof.
  unfold requested.
  destruct (strict_eq _ "home"); [intros [= <-]; exists "home"; reflexivity|].
  destruct (strict_eq _ "search").
  { destruct (truthy _); [|done]. intros [= <-]. eexists. reflexivity. }
  destruct (strict_eq _ "details"); [|done].
  destruct (truthy _); [|done]. intros [= <-]. eexists. reflexivity.
Qed.

(** X1. A pre-flight ([OPTIONS]) is answered 200 with an empty body and
    the trace left as it was, whatever its query string and whatever the
    upstream would answer: two pre-flights get the same response even when
    their parameters differ. *)
Theorem preflight_is_200_empty
    (req req' : Request) (res : ServerResponse) (tr : list event) :
  req_method req = "OPTIONS" ->
  (exists res', handler req res tr = (Return res', tr)
     /\ statusCode res' = 200
     /\ sent res' = Some EmptyBody)
  /\ (req_method req' = "OPTIONS" -> handler req' res tr = handler req res tr).
Proof.
  intros Hm. split.
  - eexists. split; [apply Props.handler_options; exact Hm|]. split; reflexivity.
  - intros Hm'. rewrite !Props.handler_options by assumption. reflexivity.
Qed.

(** X2. Whatever the request, [handler] sends at most one request
    upstream, only to a URL under [https://hianime.to/], and with the
    fixed browser headers. *)
Theorem one_fetch_same_origin (req : Request) (res : ServerResponse) (tr : list event) :
  exists res' new,
    handler req res tr = (Return res', (tr ++ new)%list)
    /\ (length (fetched new) <= 1)%nat
    /\ (forall url, url ∈ fetched new -> exists path, url = "https://hianime.to/" +:+ path)
    /\ (forall hdrs, hdrs ∈ sent_headers new -> hdrs = request_headers).
Proof.
  destruct (handler_view req res tr)
    as [[_ E]|[(_ & _ & _ & _ & E)|[(_ & _ & _ & _ & E)|[(_ & _ & _ & _ & E)
       |(_ & url & result & Hu & E & _)]]]].
  1-4: eexists; exists []; rewrite app_nil_r; split; [exact E|]; simpl;
       split; [lia|]; split; intros ? Hin; inversion Hin.
  unfold Anime.answer in E. destruct (requested_origin req url Hu) as [path ->].
  destruct (settle _) as [e|html]; eexists; eexists; (split; [exact E|]); simpl;
    (split; [lia|]); split; intros ? Hin%list_elem_of_singleton; subst; eauto.
Qed.

(** X3. The answer to a request that is not a pre-flight always has a
    JSON body; its status is 200, 400 or 500; its [success] field is true
    exactly when the status is 200; and it has an [error] field, a string
    that is not empty, exactly when the status is not 200. *)
Theorem success_agrees_with_status
    (req : Request) (res : ServerResponse) (tr : list event) :
  req_method req <> "OPTIONS" ->
  exists res' tr' v,
    handler req res tr = (Return res', tr')
    /\ sent res' = Some (JsonBody v)
    /\ (statusCode res' = 200 \/ statusCode res' = 400 \/ statusCode res' = 500)
    /\ get "success" v = Some (VBool (bool_decide (statusCode res' = 200)))
    /\ (statusCode res' = 200 -> get "error" v = None)
    /\ (statusCode res' <> 200 ->
        exists msg, msg <> "" /\ get "error" v = Some (VStr msg)).
Proof.
  intros Hm.
  destruct (handler_view req res tr)
    as [[Hm' _]|[(_ & _ & _ & _ & E)|[(_ & _ & _ & _ & E)|[(_ & _ & _ & _ & E)
       |(_ & url & result & Hu & E & Hshape)]]]]; [done|..].
  - do 3 eexists. split; [exact E|]. simpl. split; [reflexivity|]. split; [auto|].
    split; [reflexivity|]. split; [discriminate|]. intros _. eexists. split; [|reflexivity].
    discriminate.
  - do 3 eexists. split; [exact E|]. simpl. split; [reflexivity|]. split; [auto|].
    split; [reflexivity|]. split; [discriminate|]. intros _. eexists. split; [|reflexivity].
    discriminate.
  - do 3 eexists. split; [exact E|]. simpl. split; [reflexivity|]. split; [auto|].
    split; [reflexivity|]. split; [reflexivity|]. done.
  - unfold Anime.answer in E. destruct (settle url) as [e|html].
    + do 3 eexists. split; [exact E|]. simpl. split; [reflexivity|]. split; [auto|].
      split; [reflexivity|]. split; [discriminate|]. intros _. eexists. split; [|reflexivity].
      unfold JsString.truthy. destruct (decide (message e = "")) as [Hz|Hz].
      * rewrite bool_decide_eq_true_2 by done. discriminate.
      * rewrite bool_decide_eq_false_2 by done. exact Hz.
    + destruct (Hshape html) as [data Hd]. rewrite Hd in E.
      do 3 eexists. split; [exact E|]. simpl. split; [reflexivity|]. split; [auto|].
      split; [reflexivity|]. split; [reflexivity|]. done.
Qed.

(** X4. For a request that is not a pre-flight: the status is 400 exactly
    when the action is [search] with a missing or empty [query], or
    [details] with a missing or empty [id]; it is 500 exactly when the
    request asks the upstream for a URL and that request fails; it is 200
    in every other case. *)
Theorem status_is_decided_by
    (req : Request) (res res' : ServerResponse) (tr tr' : list event) :
  req_method req <> "OPTIONS" ->
  handler req res tr = (Return res', tr') ->
  (statusCode res' = 400 <->
     (req_query req !! "action" = Some (QStr "search")
      /\ truthy (req_query req !! "query") = false)
     \/ (req_query req !! "action" = Some (QStr "details")
         /\ truthy (req_query req !! "id") = false))
  /\ (statusCode res' = 500 <->
      exists url e, requested req = Some url /\ fails upstream url e)
  /\ (statusCode res' <> 400 -> statusCode res' <> 500 -> statusCode res' = 200).
Proof.
  intros Hm E.
  destruct (handler_view req res tr)
    as [[Hm' _]|[(_ & Ha & Hq & Hu & E')|[(_ & Ha & Hq & Hu & E')|[(_ & Hs & Hd & Hu & E')
       |(_ & url & result & Hu & E' & _)]]]]; [done|..];
    rewrite E' in E.
  - injection E as <- _. simpl. split; [|split].
    + split; auto.
    + split; [discriminate|]. intros (url & e & Hu' & _). congruence.
    + done.
  - injection E as <- _. simpl. split; [|split].
    + split; auto.
    + split; [discriminate|]. intros (url & e & Hu' & _). congruence.
    + done.
  - injection E as <- _. simpl. split; [|split].
    + split; [discriminate|]. intros [[Ha _]|[Ha _]]; congruence.
    + split; [discriminate|]. intros (url & e & Hu' & _). congruence.
    + done.
  - assert (Hvalid : ~ ((req_query req !! "action" = Some (QStr "search")
                         /\ truthy (req_query req !! "query") = false)
                        \/ (req_query req !! "action" = Some (QStr "details")
                            /\ truthy (req_query req !! "id") = false))).
    { revert Hu. unfold requested. intros Hu [[Ha Hq]|[Ha Hq]]; rewrite Ha, Hq in Hu;
        simpl in Hu; discriminate. }
    unfold Anime.answer in E. destruct (settle url) as [e|html] eqn:Hs.
    + injection E as <- _. simpl. split; [|split].
      * split; [discriminate|]. intros Hc. destruct (Hvalid Hc).
      * split; [|reflexivity]. intros _. exists url, e. split; [exact Hu|].
        apply Props.settle_fails. exact Hs.
      * done.
    + injection E as <- _. simpl. split; [|split].
      * split; [discriminate|]. intros Hc. destruct (Hvalid Hc).
      * split; [discriminate|]. intros (url' & e & Hu' & Hf).
        rewrite Hu in Hu'. injection Hu' as <-.
        apply Props.settle_fails in Hf. congruence.
      * done.
Qed.

(** X5. [console.error] is called only when the upstream request fails:
    the trace of an answer other than 500 gains no log entry, and the
    trace of a 500 gains exactly two, [Fetch error:] then [API Error:],
    both with the error whose message the envelope reports. *)
Theorem logs_only_on_failure (req : Request) (res : ServerResponse) (tr : list event) :
  exists res' new,
    handler req res tr = (Return res', (tr ++ new)%list)
    /\ (statusCode res' <> 500 -> logged new = [])
    /\ (statusCode res' = 500 ->
        exists e, logged new = [ ("Fetch error:", e); ("API Error:", e) ]
          /\ sent res' = Some (error_envelope (or_str (Some (message e))
                                                 "Internal server error"))).
Proof.
  destruct (handler_view req res tr)
    as [[_ E]|[(_ & _ & _ & _ & E)|[(_ & _ & _ & _ & E)|[(_ & _ & _ & _ & E)
       |(_ & url & result & Hu & E & _)]]]].
  1-4: eexists; exists []; rewrite app_nil_r; split; [exact E|]; simpl;
       split; [reflexivity|discriminate].
  unfold Anime.answer in E.
  destruct (settle url) as [e|html]; eexists; eexists; (split; [exact E|]); simpl; split.
  - done.
  - intros _. exists e. split; reflexivity.
  - reflexivity.
  - discriminate.
Qed.

Lemma fetch_run (path : string) (tr : list event) :
  fetchFromHiAnime path tr =
  match settle (BASE_URL +:+ path) with
  | inl e => (Throw e, (tr ++ [ Fetch (BASE_URL +:+ path) request_headers;
                                ConsoleError "Fetch error:" e ])%list)
  | inr html => (Return html, (tr ++ [ Fetch (BASE_URL +:+ path) request_headers ])%list)
  end.
Proof.
  pose proof (Props.fetch_bind upstream path ret tr) as E. unfold bind, ret in E.
  destruct (fetchFromHiAnime path tr) as [[html|e] tr'];
    destruct (settle (BASE_URL +:+ path)); exact E.
Qed.

(** X6. [fetchFromHiAnime(path)] returns the markup exactly when the
    upstream serves [BASE_URL + path] (status in 200..299 and a readable
    body), and then the trace gains the one request and no log entry; it
    throws [e] exactly when that request fails with [e], and then the
    trace gains the one request followed by one [Fetch error:] entry. *)
Theorem fetchFromHiAnime_contract (path : string) (tr : list event) :
  (forall html tr',
     fetchFromHiAnime path tr = (Return html, tr') <->
     serves upstream (BASE_URL +:+ path) html
     /\ tr' = (tr ++ [ Fetch (BASE_URL +:+ path) request_headers ])%list)
  /\ (forall e tr',
        fetchFromHiAnime path tr = (Throw e, tr') <->
        fails upstream (BASE_URL +:+ path) e
        /\ tr' = (tr ++ [ Fetch (BASE_URL +:+ path) request_headers;
                          ConsoleError "Fetch error:" e ])%list).
Proof.
  split; intros x tr'; rewrite fetch_run.
  - rewrite <- Props.settle_serves.
    destruct (settle (BASE_URL +:+ path)) as [e|html]; split.
    + discriminate.
    + intros [[=] _].
    + intros [= <- <-]. done.
    + intros [[= <-] ->]. done.
  - rewrite <- Props.settle_fails.
    destruct (settle (BASE_URL +:+ path)) as [e|html]; split.
    + intros [= <- <-]. done.
    + intros [[= <-] ->]. done.
    + discriminate.
    + intros [[=] _].
Qed.

(** X9. [handler] reads nothing of a request but its method, its
    [action], [query] and [id] parameters and the number
    [parseInt(page) || 1]: two requests that agree on these are answered
    alike, with the same effects. So any other parameter is ignored, and
    a [page] that is missing, not a numeral or zero is the same as page 1. *)
Theorem handler_reads_five_things
    (req req' : Request) (res : ServerResponse) (tr : list event) :
  req_method req = req_method req' ->
  req_query req !! "action" = req_query req' !! "action" ->
  req_query req !! "query" = req_query req' !! "query" ->
  req_query req !! "id" = req_query req' !! "id" ->
  page_of req = page_of req' ->
  handler req res tr = handler req' res tr.
Proof.
  unfold page_of, Anime.handler. intros -> -> -> -> ->. reflexivity.
Qed.

(** X10. Whatever markup is served for a title, [genres] has one string
    per link that [.item-list a] matched, in the order of the links and
    with repeated genres kept: the string at position [i] is the trimmed
    text of link [i]. *)
Theorem genres_follow_links (animeId : param) (html : string) (tr : list event) :
  serves upstream (BASE_URL +:+ details_path animeId) html ->
  exists v genres tr',
    Anime.getAnimeDetails upstream animeId tr = (Return v, tr')
    /\ dig ["data"; "genres"] v = Some (VArr genres)
    /\ length genres = length (toArray (select (load html) ".item-list a"))
    /\ forall i el,
         toArray (select (load html) ".item-list a") !! i = Some el ->
         genres !! i = Some (VStr (JsString.trim (text (wrap (load html) el)))).
Proof.
  intros Hs%Props.settle_serves. do 3 eexists. split; [|split; [|split]].
  - unfold Anime.getAnimeDetails. rewrite Props.fetch_bind, Hs. reflexivity.
  - reflexivity.
  - apply length_map.
  - intros i el Hel. rewrite list_lookup_fmap, Hel. reflexivity.
Qed.


End Properties.
End MoreProps.

(** * Properties of the string and number handling *)

Module MoreStrings.
Import JsString JsNumber Js Effect Anime More.

Lemma bytes_of_list (l : list ascii) : bytes (String.string_of_list_ascii l) = l.
Proof. apply String.list_ascii_of_string_of_list_ascii. Qed.

Lemma of_list_bytes (s : string) : String.string_of_list_ascii (bytes s) = s.
Proof. apply String.string_of_list_ascii_of_string. Qed.

Lemma bytes_app (s1 s2 : string) : bytes (s1 +:+ s2) = (bytes s1 ++ bytes s2)%list.
Proof.
  unfold bytes. induction s1 as [|c s1 IH]; simpl; [reflexivity|]. rewrite IH. reflexivity.
Qed.

Lemma bytes_inj (s1 s2 : string) : bytes s1 = bytes s2 -> s1 = s2.
Proof. intros E. rewrite <- (of_list_bytes s1), <- (of_list_bytes s2), E. reflexivity. Qed.

(** ** The last segment of a link *)

Lemma last_map {A B} (f : A -> B) (l : list A) : last (map f l) = f <$> last l.
Proof.
  induction l as [|x [|y l] IH]; [reflexivity..|]. exact IH.
Qed.

Lemma split_bytes_nonempty (sep : ascii) (l : list ascii) : split_bytes sep l <> [].
Proof.
  destruct l as [|c l]; simpl; [discriminate|].
  destruct (decide (c = sep)); [discriminate|]. destruct (split_bytes sep l); discriminate.
Qed.

Lemma split_bytes_none (sep : ascii) (l : list ascii) :
  sep ∉ l -> split_bytes sep l = [l].
Proof.
  induction l as [|c l IH]; intros Hl; simpl; [reflexivity|].
  apply not_elem_of_cons in Hl as [Hc Hl].
  destruct (decide (c = sep)); [congruence|]. rewrite (IH Hl). reflexivity.
Qed.

Lemma split_bytes_app (sep : ascii) (p s : list ascii) :
  exists seg init, split_bytes sep (p ++ sep :: s) = ((seg :: init) ++ split_bytes sep s)%list.
Proof.
  induction p as [|c p (seg & init & IH)]; simpl.
  - exists [], []. destruct (decide (sep = sep)); [reflexivity|done].
  - rewrite IH. destruct (decide (c = sep)).
    + exists [], (seg :: init). reflexivity.
    + exists (c :: seg), init. reflexivity.
Qed.

Lemma last_split_bytes (sep : ascii) (p s : list ascii) :
  sep ∉ s -> last (split_bytes sep (p ++ sep :: s)) = Some s.
Proof.
  intros Hs. destruct (split_bytes_app sep p s) as (seg & init & ->).
  rewrite (split_bytes_none sep s Hs), last_app. reflexivity.
Qed.

Lemma split_bytes_slashless (sep : ascii) (l seg : list ascii) :
  seg ∈ split_bytes sep l -> sep ∉ seg.
Proof.
  revert seg. induction l as [|c l IH]; simpl; intros seg Hin.
  - apply list_elem_of_singleton in Hin as ->. apply not_elem_of_nil.
  - destruct (decide (c = sep)).
    + apply elem_of_cons in Hin as [->|Hin]; [apply not_elem_of_nil|apply IH; exact Hin].
    + destruct (split_bytes sep l) as [|seg0 segs] eqn:E.
      * apply list_elem_of_singleton in Hin as ->.
        apply not_elem_of_cons. split; [congruence|apply not_elem_of_nil].
      * apply elem_of_cons in Hin as [->|Hin].
        -- apply not_elem_of_cons. split; [congruence|]. apply IH. left.
        -- apply IH. right. exact Hin.
Qed.

(** X7. The [id] of an entry is the last segment of its link: for a link
    [prefix/segment] where [segment] has no slash the id is [segment]
    (so a query string after the last slash stays in the id, and a link
    that ends in a slash gives the empty id); a link with no slash is its
    own id; no link at all gives the empty id; and an id never contains a
    slash. *)
Theorem id_is_last_segment :
  (forall prefix segment,
     slashless segment -> last_segment (Some (prefix +:+ "/" +:+ segment)) = segment)
  /\ (forall segment, slashless segment -> last_segment (Some segment) = segment)
  /\ last_segment None = ""
  /\ (forall href, slashless (last_segment href)).
Proof.
  assert (Hor : forall s, or_str (Some s) "" = s).
  { intros s. unfold or_str, JsString.truthy.
    destruct (decide (s = "")) as [->|Hs]; [reflexivity|].
    rewrite bool_decide_eq_false_2 by done. reflexivity. }
  split; [|split; [|split]].
  - intros prefix segment Hs.
    change (last_segment (Some (prefix +:+ "/" +:+ segment)))
      with (or_str (pop (split "/" (prefix +:+ "/" +:+ segment))) "").
    unfold pop, split. rewrite last_map, bytes_app.
    change (bytes ("/" +:+ segment)) with ("/"%char :: bytes segment).
    rewrite (last_split_bytes _ _ _ Hs).
    change (String.string_of_list_ascii <$> Some (bytes segment))
      with (Some (String.string_of_list_ascii (bytes segment))).
    rewrite of_list_bytes. apply Hor.
  - intros segment Hs.
    change (last_segment (Some segment)) with (or_str (pop (split "/" segment)) "").
    unfold pop, split. rewrite (split_bytes_none _ _ Hs).
    change (last (map String.string_of_list_ascii [bytes segment]))
      with (Some (String.string_of_list_ascii (bytes segment))).
    rewrite of_list_bytes. apply Hor.
  - reflexivity.
  - intros [href|]; [|apply not_elem_of_nil].
    change (last_segment (Some href)) with (or_str (pop (split "/" href)) "").
    unfold pop, split, slashless. rewrite last_map.
    destruct (last (split_bytes "/" (bytes href))) as [seg|] eqn:E;
      [|apply not_elem_of_nil].
    change (String.string_of_list_ascii <$> Some seg)
      with (Some (String.string_of_list_ascii seg)).
    rewrite Hor, bytes_of_list. apply (split_bytes_slashless "/"%char (bytes href)).
    apply last_Some_elem_of. exact E.
Qed.

(** ** Trimming *)

Lemma strip_prefix_Some (p l r : list ascii) :
  strip_prefix p l = Some r <-> l = (p ++ r)%list.
Proof.
  revert l. induction p as [|a p IH]; intros l; simpl.
  - split; [intros [= <-]|intros ->]; reflexivity.
  - destruct l as [|b l]; [split; discriminate|].
    destruct (decide (a = b)) as [->|Hab].
    + rewrite IH. split; [intros ->; reflexivity|intros [= ->]; reflexivity].
    + split; [discriminate|]. intros [= -> _]. done.
Qed.

Lemma strip_one_Some (pats : list (list ascii)) (l r : list ascii) :
  strip_one pats l = Some r -> exists p, p ∈ pats /\ l = (p ++ r)%list.
Proof.
  induction pats as [|p pats IH]; simpl; [discriminate|].
  destruct (strip_prefix p l) as [r'|] eqn:E.
  - intros [= <-]. exists p. split; [left|]. apply strip_prefix_Some. exact E.
  - intros Hr. destruct (IH Hr) as (q & Hq & ->). exists q. split; [right; exact Hq|reflexivity].
Qed.

Lemma strip_one_None (pats : list (list ascii)) (p l r : list ascii) :
  p ∈ pats -> l = (p ++ r)%list -> strip_one pats l <> None.
Proof.
  intros Hp ->. induction pats as [|q pats IH]; [inversion Hp|]. simpl.
  destruct (strip_prefix q (p ++ r)) eqn:E; [discriminate|].
  apply elem_of_cons in Hp as [->|Hp]; [|apply IH; exact Hp].
  assert (strip_prefix q (q ++ r) = Some r) by (apply strip_prefix_Some; reflexivity).
  congruence.
Qed.

(** With enough fuel nothing is left to strip, and what is returned is
    the end of the input. *)
Lemma strip_all_spec (pats : list (list ascii)) (fuel : nat) (l : list ascii) :
  [] ∉ pats ->
  (length l <= fuel)%nat ->
  strip_one pats (strip_all fuel pats l) = None
  /\ exists pre, l = (pre ++ strip_all fuel pats l)%list.
Proof.
  intros Hne. revert l. induction fuel as [|fuel IH]; intros l Hl; simpl.
  - destruct l; [|simpl in Hl; lia]. split; [|exists []; reflexivity].
    destruct (strip_one pats []) as [r|] eqn:E; [|reflexivity].
    apply strip_one_Some in E as (p & Hp & E). symmetry in E.
    apply app_eq_nil in E as [-> _]. done.
  - destruct (strip_one pats l) as [r|] eqn:E; [|split; [exact E|exists []; reflexivity]].
    apply strip_one_Some in E as (p & Hp & ->).
    assert (p <> []) by (intros ->; done).
    destruct (IH r) as (Hnone & pre & Hpre).
    { rewrite length_app in Hl. destruct p; [done|]. simpl in Hl. lia. }
    split; [exact Hnone|]. exists (p ++ pre)%list. rewrite <- app_assoc, <- Hpre. reflexivity.
Qed.

Lemma strip_all_id (pats : list (list ascii)) (fuel : nat) (l : list ascii) :
  strip_one pats l = None -> strip_all fuel pats l = l.
Proof. intros E. destruct fuel; simpl; [|rewrite E]; reflexivity. Qed.

Lemma white_space_nonempty : [] ∉ white_space.
Proof. intros Hin. vm_compute in Hin. repeat (apply elem_of_cons in Hin as [[=]|Hin]). inversion Hin. Qed.

Lemma white_space_rev_nonempty : [] ∉ map (@rev ascii) white_space.
Proof. intros Hin. vm_compute in Hin. repeat (apply elem_of_cons in Hin as [[=]|Hin]). inversion Hin. Qed.

Lemma trimmed_bytes (l : list ascii) :
  strip_one white_space (trimEnd_bytes (trimStart_bytes l)) = None
  /\ strip_one (map (@rev ascii) white_space) (rev (trimEnd_bytes (trimStart_bytes l))) = None.
Proof.
  destruct (strip_all_spec white_space (length l) l white_space_nonempty (le_n _))
    as (Hstart & pre & Hpre).
  fold (trimStart_bytes l) in Hstart, Hpre.
  set (m := trimStart_bytes l) in *.
  destruct (strip_all_spec (map (@rev ascii) white_space) (length m) (rev m)
              white_space_rev_nonempty) as (Hend & post & Hpost).
  { rewrite length_rev. reflexivity. }
  unfold trimEnd_bytes. rewrite rev_involutive. split; [|exact Hend].
  set (k := strip_all (length m) (map (@rev ascii) white_space) (rev m)) in *.
  destruct (strip_one white_space (rev k)) as [r|] eqn:E; [|reflexivity].
  exfalso. apply strip_one_Some in E as (p & Hp & E).
  apply (strip_one_None white_space p m (r ++ rev post) Hp); [|exact Hstart].
  rewrite <- (rev_involutive m), Hpost, rev_app_distr, E, <- app_assoc. reflexivity.
Qed.

(** X12. What [trim] returns neither starts nor ends with a white space
    or line terminator character, whatever the text; and a text that
    neither starts nor ends with one is returned as it is, so trimming
    twice is trimming once. *)
Theorem trim_is_trimmed :
  (forall s, trimmed (trim s))
  /\ (forall s, trimmed s -> trim s = s)
  /\ (forall s, trim (trim s) = trim s)
  /\ (forall (C : Cheerio) dollar animeId field t,
        field ∈ ["title"; "description"; "type"; "status"] ->
        dig ["data"; field] (details_result dollar animeId) = Some (VStr t) ->
        trimmed t).
Proof.
  assert (H1 : forall s, trimmed (trim s)).
  { intros s. unfold trimmed, trim. rewrite bytes_of_list. apply trimmed_bytes. }
  assert (H2 : forall s, trimmed s -> trim s = s).
  { intros s [Hs He]. unfold trim, trimEnd_bytes, trimStart_bytes.
    rewrite (strip_all_id _ _ _ Hs), (strip_all_id _ _ _ He), rev_involutive.
    apply of_list_bytes. }
  split; [exact H1|]. split; [exact H2|]. split; [intros s; apply H2, H1|].
  intros C dollar animeId field t Hf.
  repeat (apply elem_of_cons in Hf as [->|Hf]); [..|inversion Hf];
    intros [= <-]; apply H1.
Qed.

(** ** The keyword of a search in the upstream URL *)

Lemma code_range (c : ascii) : 0 <= code c < 256.
Proof. unfold code. pose proof (Ascii.N_ascii_bounded c). lia. Qed.

Lemma code_inj (c c' : ascii) : code c = code c' -> c = c'.
Proof.
  unfold code. intros E%N2Z.inj.
  rewrite <- (Ascii.ascii_N_embedding c), <- (Ascii.ascii_N_embedding c'), E. reflexivity.
Qed.

Lemma code_of_N (n : Z) : 0 <= n < 256 -> code (Ascii.ascii_of_N (Z.to_N n)) = n.
Proof.
  intros Hn. unfold code. rewrite Ascii.N_ascii_embedding by lia. lia.
Qed.

Lemma code_hex_digit (n : Z) :
  0 <= n < 16 -> code (hex_digit n) = if n <? 10 then 48 + n else 55 + n.
Proof.
  intros Hn. unfold hex_digit. apply code_of_N. destruct (n <? 10); lia.
Qed.

Lemma hex_digit_inj (a b : Z) :
  0 <= a < 16 -> 0 <= b < 16 -> hex_digit a = hex_digit b -> a = b.
Proof.
  intros Ha Hb E%(f_equal code). rewrite !code_hex_digit in E by assumption.
  destruct (a <? 10) eqn:Ea, (b <? 10) eqn:Eb; lia.
Qed.

Lemma unreserved_code (c : ascii) :
  unreserved c = true -> code c <> 37 /\ code c <> 38.
Proof.
  unfold unreserved. set (n := code c). intros Hu. split; intros E; rewrite E in Hu;
    vm_compute in Hu; discriminate.
Qed.

Lemma encode_bytes_inj (l1 l2 : list ascii) :
  encode_bytes l1 = encode_bytes l2 -> l1 = l2.
Proof.
  revert l2. induction l1 as [|c l1 IH]; intros [|c' l2]; simpl.
  - reflexivity.
  - destruct (unreserved c'); discriminate.
  - destruct (unreserved c); discriminate.
  - pose proof (code_range c) as Hc. pose proof (code_range c') as Hc'.
    destruct (unreserved c) eqn:Hu, (unreserved c') eqn:Hu'.
    + intros [= -> E]. rewrite (IH _ E). reflexivity.
    + intros [= -> _]. apply unreserved_code in Hu as [Hu _]. done.
    + intros [= <- _]. apply unreserved_code in Hu' as [Hu' _]. done.
    + intros [= Hhi Hlo E].
      apply hex_digit_inj in Hhi; [|split; [apply Z.div_pos|apply Z.div_lt_upper_bound]; lia..].
      apply hex_digit_inj in Hlo; [|apply Z.mod_pos_bound; lia..].
      assert (c = c') as ->.
      { apply code_inj. rewrite (Z.div_mod (code c) 16), (Z.div_mod (code c') 16) by lia.
        rewrite Hhi, Hlo. reflexivity. }
      rewrite (IH _ E). reflexivity.
Qed.

Lemma encode_bytes_no_amp (l : list ascii) : "&"%char ∉ encode_bytes l.
Proof.
  induction l as [|c l IH]; simpl; [apply not_elem_of_nil|].
  pose proof (code_range c) as Hc.
  destruct (unreserved c) eqn:Hu.
  - apply not_elem_of_cons. split; [|exact IH].
    apply unreserved_code in Hu as [_ Hu]. intros <-. apply Hu. reflexivity.
  - assert (Hhex : forall n, 0 <= n < 16 -> "&"%char <> hex_digit n).
    { intros n Hn E%(f_equal code). rewrite code_hex_digit in E by assumption.
      change (code "&") with 38 in E. destruct (n <? 10); lia. }
    repeat (apply not_elem_of_cons; split); [discriminate| | |exact IH].
    + apply Hhex. split; [apply Z.div_pos|apply Z.div_lt_upper_bound]; lia.
    + apply Hhex. apply Z.mod_pos_bound. lia.
Qed.

Lemma split_at_first {A} (x : A) (a a' b b' : list A) :
  x ∉ a -> x ∉ a' -> (a ++ x :: b = a' ++ x :: b')%list -> a = a' /\ b = b'.
Proof.
  revert a'. induction a as [|y a IH]; intros [|y' a'] Ha Ha'; simpl.
  - intros [= ->]. done.
  - intros [= <- _]. apply not_elem_of_cons in Ha' as [Ha' _]. done.
  - intros [= -> _]. apply not_elem_of_cons in Ha as [Ha _]. done.
  - apply not_elem_of_cons in Ha as [_ Ha]. apply not_elem_of_cons in Ha' as [_ Ha'].
    intros [= -> E]. destruct (IH a' Ha Ha' E) as [-> ->]. done.
Qed.

(** X8. The keyword is percent-encoded so that it cannot reach into the
    rest of the upstream URL: the encoded keyword contains no [&], and two
    searches ask for the same path only if they have the same keyword and
    the same page. *)
Theorem search_path_separates (q1 q2 : string) (p1 p2 : number) :
  search_path (Some (QStr q1)) p1 = search_path (Some (QStr q2)) p2 ->
  q1 = q2
  /\ JsNumber.to_string p1 = JsNumber.to_string p2
  /\ "&"%char ∉ bytes (encodeURIComponent q1).
Proof.
  assert (Hamp : forall q, "&"%char ∉ bytes (encodeURIComponent q)).
  { intros q. unfold encodeURIComponent. rewrite bytes_of_list. apply encode_bytes_no_amp. }
  unfold search_path. intros E%(f_equal bytes). simpl Js.to_string in E.
  rewrite !bytes_app in E. apply app_inv_head in E.
  change (bytes "&page=") with ("&"%char :: bytes "page=") in E.
  simpl app in E.
  apply split_at_first in E as [Eq Ep]; [|apply Hamp..].
  unfold encodeURIComponent in Eq. rewrite !bytes_of_list in Eq.
  apply encode_bytes_inj, bytes_inj in Eq. injection Ep as Ep. apply bytes_inj in Ep.
  split; [exact Eq|]. split; [exact Ep|apply Hamp].
Qed.

(** ** The page number, from the request to the upstream URL *)

Lemma digit_char (d : Z) :
  0 <= d < 10 ->
  is_dec (Ascii.ascii_of_N (Z.to_N (48 + d)))
  /\ digit_value (Ascii.ascii_of_N (Z.to_N (48 + d))) = Some d.
Proof.
  intros Hd. unfold is_dec, digit_value. rewrite code_of_N by lia.
  split; [lia|]. replace ((48 <=? 48 + d) && (48 + d <=? 57)) with true by lia.
  f_equal. lia.
Qed.

Lemma dec_digits_spec (fuel : nat) (z : Z) (acc : list ascii) (o : option Z) :
  (0 < fuel)%nat -> 0 <= z < 2 ^ Z.of_nat fuel ->
  o = None \/ o = Some 0 ->
  digits 10 (dec_digits fuel z acc) o = digits 10 acc (Some z)
  /\ (Forall is_dec acc -> Forall is_dec (dec_digits fuel z acc))
  /\ dec_digits fuel z acc <> [].
Proof.
  revert z acc. induction fuel as [|fuel IH]; intros z acc Hf Hz Ho; [lia|].
  assert (Hd : 0 <= z mod 10 < 10) by (apply Z.mod_pos_bound; lia).
  destruct (digit_char _ Hd) as [Hdec Hval].
  simpl dec_digits. destruct (z <? 10) eqn:Hz10.
  - split; [|split; [|discriminate]].
    + simpl. rewrite Hval. replace (z mod 10 <? 10) with true by lia.
      do 2 f_equal. rewrite Z.mod_small by lia. destruct Ho as [->| ->]; simpl; lia.
    + intros Hacc. constructor; assumption.
  - assert (Hz' : 0 <= z / 10 < 2 ^ Z.of_nat fuel).
    { split; [apply Z.div_pos; lia|]. apply Z.div_lt_upper_bound; [lia|].
      rewrite Nat2Z.inj_succ, Z.pow_succ_r in Hz by lia. lia. }
    assert (Hf' : (0 < fuel)%nat).
    { destruct fuel; [|lia]. simpl in Hz'. assert (1 <= z / 10) by (apply Z.div_le_lower_bound; lia). lia. }
    destruct (IH (z / 10) (Ascii.ascii_of_N (Z.to_N (48 + z mod 10)) :: acc) Hf' Hz' Ho)
      as (Hdig & Hall & Hne).
    split; [|split; [|exact Hne]].
    + rewrite Hdig. simpl. rewrite Hval. replace (z mod 10 <? 10) with true by lia.
      do 2 f_equal. pose proof (Z.div_mod z 10). lia.
    + intros Hacc. apply Hall. constructor; assumption.
Qed.

Lemma dec_digits_length (fuel : nat) (z : Z) (acc : list ascii) (k : nat) :
  (0 < k)%nat -> 0 <= z < 10 ^ Z.of_nat k ->
  (length (dec_digits fuel z acc) <= length acc + k)%nat.
Proof.
  revert z acc k. induction fuel as [|fuel IH]; intros z acc k Hk Hz; simpl; [lia|].
  destruct (z <? 10) eqn:Hz10; simpl; [lia|].
  destruct k as [|[|k]]; [lia|simpl in Hz; lia|].
  etransitivity; [apply (IH _ _ (S k)); [lia|]|simpl; lia].
  split; [apply Z.div_pos; lia|]. apply Z.div_lt_upper_bound; [lia|].
  rewrite (Nat2Z.inj_succ (S k)), Z.pow_succ_r in Hz by lia. lia.
Qed.

Lemma dec_spec (n : Z) :
  0 < n < 2 ^ 53 ->
  digits 10 (dec n) None = Some n
  /\ Forall is_dec (dec n) /\ dec n <> [] /\ (length (dec n) <= 16)%nat.
Proof.
  intros Hn. unfold dec.
  destruct (dec_digits_spec (Z.to_nat (Z.log2 n) + 1) n [] None) as (Hd & Hall & Hne).
  - lia.
  - pose proof (Z.log2_nonneg n). pose proof (Z.log2_spec n ltac:(lia)) as [_ Hlt].
    split; [lia|]. replace (Z.of_nat (Z.to_nat (Z.log2 n) + 1)) with (Z.succ (Z.log2 n)) by lia.
    exact Hlt.
  - left. reflexivity.
  - split; [exact Hd|]. split; [apply Hall; constructor|]. split; [exact Hne|].
    apply (dec_digits_length _ n [] 16); [lia|].
    split; [lia|]. eapply Z.lt_trans; [apply Hn|]. reflexivity.
Qed.

Lemma white_space_heads (p : list ascii) (x : ascii) :
  p ∈ white_space -> head p = Some x -> ~ is_dec x.
Proof.
  intros Hin. vm_compute in Hin.
  repeat (apply elem_of_cons in Hin as [->|Hin]);
    [intros [= <-]; unfold is_dec; vm_compute; intros [H1 H2];
     first [apply H1; reflexivity | apply H2; reflexivity]..|inversion Hin].
Qed.

Lemma parseInt_bytes_numeral (l : list ascii) (n : Z) :
  0 <= n < 2 ^ 53 -> Forall is_dec l -> digits 10 l None = Some n ->
  parseInt_bytes l = Finite n.
Proof.
  intros Hn Hl Hd.
  destruct l as [|c rest]; [discriminate|].
  apply Forall_cons in Hl as [Hc Hrest].
  unfold parseInt_bytes, trimStart_bytes.
  rewrite strip_all_id; cycle 1.
  { destruct (strip_one white_space (c :: rest)) as [r|] eqn:E; [|reflexivity].
    apply strip_one_Some in E as (p & Hp & E). destruct p as [|x p].
    - destruct (white_space_nonempty Hp).
    - injection E as <- _. destruct (white_space_heads _ c Hp eq_refl Hc). }
  unfold is_dec in Hc.
  destruct (decide (c = "-"%char)) as [->|_]; [change (code "-") with 45 in Hc; lia|].
  destruct (decide (c = "+"%char)) as [->|_]; [change (code "+") with 43 in Hc; lia|].
  assert (HR : (let '(R, numeral) :=
                  match c :: rest with
                  | c0 :: c1 :: rest' =>
                      if bool_decide (c0 = "0"%char)
                         && (bool_decide (c1 = "x"%char) || bool_decide (c1 = "X"%char))
                      then (16, rest') else (10, c :: rest)
                  | _ => (10, c :: rest)
                  end in
                match digits R numeral None with
                | Some mathInt => of_Z mathInt
                | None => NaN
                end) = Finite n); [|exact HR].
  assert (Hof : of_Z n = Finite n).
  { unfold of_Z, round_mag. rewrite Z.abs_eq by lia.
    replace (n <? 2 ^ 53) with true by lia.
    assert (n < 2 ^ 1024).
    { eapply Z.lt_trans; [apply Hn|]. apply Z.pow_lt_mono_r; lia. }
    replace (2 ^ 1024 <=? n) with false by (symmetry; apply Z.leb_gt; assumption).
    f_equal. destruct (Z.sgn_spec n) as [[? ->]|[[? ->]|[? ->]]]; lia. }
  destruct rest as [|c1 rest']; [rewrite Hd; exact Hof|].
  apply Forall_cons in Hrest as [Hc1 _]. unfold is_dec in Hc1.
  rewrite (bool_decide_eq_false_2 (c1 = "x"%char)), (bool_decide_eq_false_2 (c1 = "X"%char)),
    andb_false_r, Hd;
    [exact Hof
    |intros ->; change (code "X") with 88 in Hc1; lia
    |intros ->; change (code "x") with 120 in Hc1; lia].
Qed.

(** X11. A page number between 1 and 2^53 - 1 written as a plain decimal
    numeral goes through unchanged: [parseInt] reads the numeral back as
    the number, so [handler] hands that number to [searchAnime], which
    writes the same numeral into the upstream URL. *)
Theorem page_number_round_trip (n : Z) (req : Request) :
  0 < n < 2 ^ 53 ->
  req_query req !! "page" = Some (QStr (JsNumber.to_string (Finite n))) ->
  parseInt (JsNumber.to_string (Finite n)) = Finite n
  /\ page_of req = Finite n
  /\ forall query,
       search_path query (page_of req)
       = "/search?keyword=" +:+ encodeURIComponent (Js.to_string query)
         +:+ "&page=" +:+ JsNumber.to_string (Finite n).
Proof.
  intros Hn Hp.
  destruct (dec_spec n Hn) as (Hd & Hall & Hne & Hlen).
  assert (Hs : JsNumber.to_string (Finite n) = String.string_of_list_ascii (dec n)).
  { unfold JsNumber.to_string, pos_to_bytes.
    replace (n =? 0) with false by lia. replace (n <? 0) with false by lia.
    replace (n <? 2 ^ 53) with true by lia.
    replace (Z.of_nat (length (dec n)) <=? 21) with true by lia. reflexivity. }
  assert (Hparse : parseInt (JsNumber.to_string (Finite n)) = Finite n).
  { rewrite Hs. unfold parseInt. rewrite bytes_of_list.
    apply parseInt_bytes_numeral; [lia|assumption..]. }
  assert (Hpage : page_of req = Finite n).
  { unfold page_of. rewrite Hp.
    change (Js.to_string (Some (QStr (JsNumber.to_string (Finite n)))))
      with (JsNumber.to_string (Finite n)).
    rewrite Hparse. unfold or_else, JsNumber.truthy.
    replace (n =? 0) with false by lia. reflexivity. }
  split; [exact Hparse|]. split; [exact Hpage|].
  intros query. rewrite Hpage. reflexivity.
Qed.

End MoreStrings.

(** * The further properties on the sample pages *)

Module MoreChecks.
Import JsString JsNumber Js Effect Anime More Sample.

Abbreviation sample_handler :=
  (Anime.handler Sample.upstream Sample.now (H := Fixture.cheerio Sample.pages)).

(** X1 on a pre-flight for the home page: nothing is fetched. *)
Lemma preflight_is_200_empty_witness :
  exists res',
    sample_handler (mkRequest "OPTIONS" (list_to_map [("action", QStr "home")])) res0 []
      = (Return res', [])
    /\ statusCode res' = 200
    /\ sent res' = Some EmptyBody.
Proof.
  apply (MoreProps.preflight_is_200_empty Sample.upstream Sample.now
           (mkRequest "OPTIONS" (list_to_map [("action", QStr "home")]))
           (mkRequest "OPTIONS" ∅) res0 []).
  reflexivity.
Defined.

(** X3 on the sample request that the upstream answers 404 for. *)
Lemma success_agrees_with_status_witness :
  exists res' tr' v,
    sample_handler (get_request [("action", QStr "details"); ("id", QStr "gone")]) res0 []
      = (Return res', tr')
    /\ sent res' = Some (JsonBody v)
    /\ (statusCode res' = 200 \/ statusCode res' = 400 \/ statusCode res' = 500)
    /\ get "success" v = Some (VBool (bool_decide (statusCode res' = 200)))
    /\ (statusCode res' = 200 -> get "error" v = None)
    /\ (statusCode res' <> 200 -> exists msg, msg <> "" /\ get "error" v = Some (VStr msg)).
Proof.
  apply (MoreProps.success_agrees_with_status Sample.upstream Sample.now
           (get_request [("action", QStr "details"); ("id", QStr "gone")]) res0 []).
  discriminate.
Defined.

(** X4 on the same request: it is answered 500, and the request to the
    upstream did fail. *)
Lemma status_is_decided_by_witness :
  let req := get_request [("action", QStr "details"); ("id", QStr "gone")] in
  let res' := Res.json (failure "HTTP 404: Not Found") (Res.status 500 (cors res0)) in
  statusCode res' = 500 <->
  exists url e, requested req = Some url /\ fails Sample.upstream url e.
Proof.
  intros req res'.
  eapply (MoreProps.status_is_decided_by Sample.upstream Sample.now
            (H := Fixture.cheerio Sample.pages) req res0 res' []).
  - discriminate.
  - vm_compute. reflexivity.
Defined.

Lemma id_is_last_segment_slashless :
  slashless "one-piece-100?ref=search" /\ slashless "".
Proof.
  split; apply (bool_decide_unpack _); vm_compute; exact I.
Qed.

(** X7 on a link with a query string: the query string stays in the id. *)
Lemma id_is_last_segment_witness :
  last_segment (Some "/watch/one-piece-100?ref=search") = "one-piece-100?ref=search"
  /\ last_segment (Some "/one-piece-100/") = "".
Proof.
  destruct id_is_last_segment_slashless as [H1 H2].
  split.
  - apply (proj1 MoreStrings.id_is_last_segment "/watch" "one-piece-100?ref=search"), H1.
  - apply (proj1 MoreStrings.id_is_last_segment "/one-piece-100" ""), H2.
Defined.

(** X8 on one search path. *)
Lemma search_path_separates_witness :
  "one piece" = "one piece"
  /\ JsNumber.to_string (Finite 2) = JsNumber.to_string (Finite 2)
  /\ "&"%char ∉ bytes (encodeURIComponent "one piece").
Proof.
  apply (MoreStrings.search_path_separates "one piece" "one piece" (Finite 2) (Finite 2)).
  reflexivity.
Defined.

(** X9 on two sample searches: one with a parameter [handler] does not
    read and no [page], one with a [page] that is not a numeral. Both are
    answered as page 1. *)
Lemma handler_reads_five_things_witness :
  sample_handler
    (get_request [("action", QStr "search"); ("query", QStr "one piece"); ("sort", QStr "asc")])
    res0 []
  = sample_handler
      (get_request [("action", QStr "search"); ("query", QStr "one piece");
                    ("page", QStr "first")])
      res0 [].
Proof.
  apply (MoreProps.handler_reads_five_things Sample.upstream Sample.now);
    vm_compute; reflexivity.
Defined.

(** X10 on the sample title page, which lists a genre twice. *)
Lemma genres_follow_links_witness :
  exists v genres tr',
    Anime.getAnimeDetails Sample.upstream (H := Fixture.cheerio Sample.pages)
      (Some (QStr "naruto-20")) [] = (Return v, tr')
    /\ dig ["data"; "genres"] v = Some (VArr genres)
    /\ length genres = 3%nat
    /\ genres !! 0%nat = Some (VStr "Action")
    /\ genres !! 2%nat = Some (VStr "Action").
Proof.
  destruct (MoreProps.genres_follow_links Sample.upstream
              (H := Fixture.cheerio Sample.pages)
              (Some (QStr "naruto-20")) (Fixture.render_page Sample.details) [])
    as (v & genres & tr' & E & Hg & Hlen & Hnth).
  { exists (mkResponse 200 "OK" (inr (Fixture.render_page Sample.details))).
    split; [vm_compute; reflexivity|]. split; reflexivity. }
  exists v, genres, tr'. split; [exact E|]. split; [exact Hg|].
  split; [rewrite Hlen; vm_compute; reflexivity|].
  split; [apply (Hnth 0%nat [6; 0]%nat)|apply (Hnth 2%nat [6; 2]%nat)];
    vm_compute; reflexivity.
Defined.

(** X11 on page 7. *)
Lemma page_number_round_trip_witness :
  let req := get_request [("action", QStr "search"); ("query", QStr "one piece");
                          ("page", QStr "7")] in
  parseInt (JsNumber.to_string (Finite 7)) = Finite 7
  /\ page_of req = Finite 7
  /\ forall query,
       search_path query (page_of req)
       = "/search?keyword=" +:+ encodeURIComponent (Js.to_string query)
         +:+ "&page=" +:+ JsNumber.to_string (Finite 7).
Proof.
  intros req.
  apply (MoreStrings.page_number_round_trip 7 req).
  - split; reflexivity.
  - vm_compute. reflexivity.
Defined.


End MoreChecks.
